(** * ccd: the change-detection scheduler of [main.py]

    A shallow embedding of the monitor: the per-site state table [STATE],
    the shared Selenium [driver], the two check strategies
    ([check_with_requests], [check_with_selenium]) and the sequential
    scheduler [monitor_loop].

    Conventions of the embedding.
    - A [datetime] is its number of microseconds (a [Z]); a [timedelta]
      is a difference of two such numbers.  [site["interval"]] is a whole
      number of seconds, so [(now - last).total_seconds() >= interval] is
      the comparison [interval * 1000000 <= now - last] (the float that
      [total_seconds] returns is exact enough to decide it for every
      interval a configuration can hold).
    - Everything the program asks of the outside world during one visit of
      a site (the clock, the HTTP reply, the browser) is collected in an
      [Env]; the functions are total in it, so an arbitrary [Env] stands
      for an arbitrarily slow, failing or hostile environment.
    - Calls that leave the program ([requests.get], [make_driver],
      [d.get], [d.quit], [time.sleep], the report lines) and the calls of
      [simple_hash] are recorded in [trace], newest first.
    - A Selenium driver object is named by the ordinal of its
      construction ([spawned] counts the drivers built so far), so two
      handles are equal exactly when they are the same object. *)

From stdpp Require Import base option list gmap strings pretty.
From Stdlib Require Import ZArith Lia.

Set Warnings "-abstract-large-number".
Open Scope Z_scope.

(** ** Exceptions *)

Inductive result (A : Type) : Type :=
| Ok (a : A)
| Raise (e : string).
Arguments Ok {A} a.
Arguments Raise {A} e.

#[global] Instance result_ret : MRet result := fun A a => Ok a.
#[global] Instance result_bind : MBind result := fun A B k m =>
  match m with
  | Ok a => k a
  | Raise e => Raise e
  end.

(** ** Data *)

(** One entry of [SITES]. *)
Record Site := mkSite {
  name : string;
  url : string;
  interval : Z;
  needs_js : bool
}.

(** One value of [STATE]: [{"last_run": .., "etag": .., "last_hash": ..}]. *)
Record SiteState := mkState {
  last_run : option Z;
  etag : option string;
  last_hash : option Z
}.

Definition fresh_state : SiteState := mkState None None None.

Definition set_last_run (t : Z) (st : SiteState) : SiteState :=
  mkState (Some t) (etag st) (last_hash st).
Definition set_last_hash (h : Z) (st : SiteState) : SiteState :=
  mkState (last_run st) (etag st) (Some h).
Definition set_etag (v : string) (st : SiteState) : SiteState :=
  mkState (last_run st) (Some v) (last_hash st).

(** The reply object [r] of [requests.get]; [headers] is keyed by the
    header name as the code spells it. *)
Record Response := mkResponse {
  status_code : Z;
  text : string;
  headers : gmap string string
}.

Inductive Event : Type :=
| EvSleep (secs : Z)
| EvChecking (site : Site) (now : Z)
| EvReport (nm : string) (changed : bool) (reason : string)
| EvHttpGet (u : string) (hdrs : gmap string string)
| EvHash (content : string)
| EvMakeDriver
| EvDriverGet (d : nat) (u : string)
| EvQuit (d : nat)
| EvPrint (msg : string).

(** What the outside world answers during one visit of a site. *)
Record Env := mkEnv {
  utcnow : Z;
  requests_get : result Response;
  make_driver : result unit;
  driver_get : result unit;
  page_source : result string;
  driver_quit : result unit
}.

(** The module-level globals, with the record of outside calls. *)
Record World := mkWorld {
  STATE : gmap string SiteState;
  driver : option nat;
  spawned : nat;
  trace : list Event
}.

Definition emit (e : Event) (w : World) : World :=
  mkWorld (STATE w) (driver w) (spawned w) (e :: trace w).
Definition set_driver (d : option nat) (w : World) : World :=
  mkWorld (STATE w) d (spawned w) (trace w).
Definition set_site_state (nm : string) (st : SiteState) (w : World) : World :=
  mkWorld (<[nm := st]> (STATE w)) (driver w) (spawned w) (trace w).

(** [STATE = {site["name"]: {...} for site in SITES}] *)
Definition init_STATE (SITES : list Site) : gmap string SiteState :=
  foldl (fun m s => <[name s := fresh_state]> m) ∅ SITES.

Definition init_world (SITES : list Site) : World :=
  mkWorld (init_STATE SITES) None 0%nat [].

(** The three-way reading of a returned pair [(changed, reason)]: the
    code returns [True] only with "changed", and [False] either with one
    of the two no-change reasons or with a failure description. *)
Inductive FetchOutcome : Type := Unchanged | Changed | Error.

Definition outcome_of (r : bool * string) : FetchOutcome :=
  if fst r then Changed
  else if bool_decide (snd r = "not modified" ∨ snd r = "no change")
       then Unchanged
       else Error.

(** Python truthiness of [state.get("etag")]: [None] and [''] are false. *)
Definition truthy (o : option string) : bool :=
  match o with
  | Some (String _ _) => true
  | _ => false
  end.

(** [text[:n]] *)
Definition prefix (n : nat) (s : string) : string := String.substring 0 n s.

Definition day_us : Z := 86400 * 1000000.

Section Program.

(** The builtin [hash] on strings: fixed for the lifetime of the
    process, otherwise unknown. *)
Variable hash : string -> Z.

(** The builtin [repr] on strings, otherwise unknown.  The text of a
    [KeyError] is the [repr] of the missing key. *)
Variable repr : string -> string.

(** [hash(text) & 0xffffffff] *)
Definition simple_hash (content : string) : Z :=
  Z.land (hash content) 0xffffffff.

(** ** Selenium driver *)

Definition ensure_driver (env : Env) (w : World) : option nat * World :=
  match driver w with
  | Some d => (Some d, w)
  | None =>
      let w1 := emit EvMakeDriver w in
      match make_driver env with
      | Ok _ =>
          let d := spawned w1 in
          (Some d, mkWorld (STATE w1) (Some d) (S (spawned w1)) (trace w1))
      | Raise e =>
          let w2 := emit (EvPrint ("Failed to start driver: " +:+ e)) w1 in
          (None, set_driver None w2)
      end
  end.

(** ** The two checks *)

(** Lines 70-73: the request headers built from the stored state. *)
Definition request_headers (st : SiteState) : gmap string string :=
  if truthy (etag st)
  then match etag st with
       | Some v => {[ "If-None-Match" := v ]}
       | None => ∅
       end
  else ∅.

Definition check_with_requests (site : Site) (env : Env) (w : World)
  : result ((bool * string) * World) :=
  match STATE w !! name site with
  | None => Raise ("KeyError: " +:+ name site)
  | Some state =>
      let w1 := emit (EvHttpGet (url site) (request_headers state)) w in
      match requests_get env with
      | Raise e => Ok ((false, "error: " +:+ e), w1)
      | Ok r =>
          if status_code r =? 304 then Ok ((false, "not modified"), w1)
          else if negb (status_code r =? 200)
          then Ok ((false, "status " +:+ pretty (status_code r)), w1)
          else
            let content := prefix 5000 (text r) in
            let h := simple_hash content in
            let w2 := emit (EvHash content) w1 in
            if bool_decide (last_hash state = Some h)
            then Ok ((false, "no change"), w2)
            else
              let state1 := set_last_hash h state in
              let state2 := match headers r !! "ETag" with
                            | Some v => set_etag v state1
                            | None => state1
                            end in
              Ok ((true, "changed"), set_site_state (name site) state2 w2)
      end
  end.

(** The [except] branch of [check_with_selenium]: the teardown. *)
Definition selenium_failed (d : nat) (e : string) (env : Env) (w : World)
  : (bool * string) * World :=
  let w1 := emit (EvPrint ("Selenium error: " +:+ e)) w in
  let w2 := emit (EvQuit d) w1 in
  let w3 := match driver_quit env with
            | Ok _ => w2
            | Raise _ => w2   (* [except: pass] *)
            end in
  ((false, "error: " +:+ e), set_driver None w3).

Definition check_with_selenium (site : Site) (env : Env) (w : World)
  : (bool * string) * World :=
  let '(od, w0) := ensure_driver env w in
  match od with
  | None => ((false, "no driver"), w0)
  | Some d =>
      let w1 := emit (EvDriverGet d (url site)) w0 in
      match driver_get env with
      | Raise e => selenium_failed d e env w1
      | Ok _ =>
          let w2 := emit (EvSleep 1) w1 in
          match page_source env with
          | Raise e => selenium_failed d e env w2
          | Ok html =>
              let content := prefix 10000 html in
              let h := simple_hash content in
              let w3 := emit (EvHash content) w2 in
              match STATE w3 !! name site with
              | None => selenium_failed d (repr (name site)) env w3
              | Some state =>
                  if bool_decide (last_hash state = Some h)
                  then ((false, "no change"), w3)
                  else ((true, "changed"),
                        set_site_state (name site) (set_last_hash h state) w3)
              end
          end
      end
  end.

(** ** The scheduler *)

(** Lines 135-137: [last = state.get("last_run") or (now - timedelta(days=1))]
    and the test [(now - last).total_seconds() >= site["interval"]]. *)
Definition due (site : Site) (st : SiteState) (now : Z) : bool :=
  let last := match last_run st with
              | Some t => t
              | None => now - day_us
              end in
  interval site * 1000000 <=? now - last.

(** Lines 140-143. *)
Definition dispatch (site : Site) (env : Env) (w : World)
  : result ((bool * string) * World) :=
  if negb (needs_js site) then check_with_requests site env w
  else Ok (check_with_selenium site env w).

(** The body of [for site in SITES] inside the loop. *)
Definition visit (site : Site) (env : Env) (w : World) : result World :=
  match STATE w !! name site with
  | None => Raise ("KeyError: " +:+ name site)
  | Some state =>
      let now := utcnow env in
      if due site state now then
        let w1 := set_site_state (name site) (set_last_run now state) w in
        let w2 := emit (EvChecking site now) w1 in
        r ← dispatch site env w2;
        let w3 := emit (EvReport (name site) (fst (fst r)) (snd (fst r))) (snd r) in
        Ok (emit (EvSleep 2) w3)
      else Ok w
  end.

(** One pass of [for site in SITES]; [envs i] answers the [i]-th visit. *)
Fixpoint round (sites : list Site) (envs : nat -> Env) (i : nat) (w : World)
  : result World :=
  match sites with
  | [] => Ok w
  | site :: rest =>
      w' ← visit site (envs i) w;
      round rest envs (S i) w'
  end.

(** [rounds] iterations of [while True], the [r]-th answered by [oracle r]. *)
Fixpoint loop (SITES : list Site) (rounds : nat) (oracle : nat -> nat -> Env)
    (r : nat) (w : World) : result World :=
  match rounds with
  | O => Ok w
  | S rounds' =>
      w1 ← round SITES (oracle r) 0%nat w;
      loop SITES rounds' oracle (S r) (emit (EvSleep 5) w1)
  end.

(** The stagger before the loop: [sleep(0)] once, then [sleep(1)]. *)
Fixpoint stagger (sites : list Site) (s : Z) (w : World) : World :=
  match sites with
  | [] => w
  | _ :: rest => stagger rest 1 (emit (EvSleep s) w)
  end.

Definition monitor_loop (SITES : list Site) (rounds : nat)
    (oracle : nat -> nat -> Env) : result World :=
  loop SITES rounds oracle 0%nat (stagger SITES 0 (init_world SITES)).

End Program.

(** ** Vocabulary of the claims *)

(** A check "obtains content": the conditional fetch got a 200 reply, or
    the browser (live, or just built) loaded the page and gave its
    source.  The index is the prefix that is fingerprinted. *)
Inductive obtains_content (site : Site) (env : Env) (w : World) : string -> Prop :=
| obtained_by_requests r :
    needs_js site = false →
    requests_get env = Ok r → status_code r = 200 →
    obtains_content site env w (prefix 5000 (text r))
| obtained_by_selenium d u html :
    needs_js site = true →
    fst (ensure_driver env w) = Some d →
    driver_get env = Ok u → page_source env = Ok html →
    obtains_content site env w (prefix 10000 html).

(** The failures of a check: for the conditional fetch a transport
    failure or a status other than 200 and 304; for the rendered fetch a
    missing rendering instance or a failure while rendering. *)
Definition check_fails (site : Site) (env : Env) (w : World) : Prop :=
  if needs_js site
  then fst (ensure_driver env w) = None
       ∨ (∃ e, driver_get env = Raise e)
       ∨ (∃ e, page_source env = Raise e)
  else (∃ e, requests_get env = Raise e)
       ∨ (∃ r, requests_get env = Ok r ∧ status_code r ≠ 200 ∧ status_code r ≠ 304).

(** The live driver, if any, was built earlier. *)
Definition driver_wf (w : World) : Prop :=
  ∀ d, driver w = Some d → (d < spawned w)%nat.

(** Handle [d] is retired: it was built once and is no longer the
    driver. *)
Definition retired (d : nat) (w : World) : Prop :=
  driver w ≠ Some d ∧ (d < spawned w)%nat.

(** [w'] is [w] after some more events, all of them satisfying [P]. *)
Definition extends (P : Event -> Prop) (w w' : World) : Prop :=
  ∃ evs, trace w' = evs ++ trace w ∧ Forall P evs.

Definition is_checking (ev : Event) : Prop :=
  match ev with
  | EvChecking _ _ => True
  | _ => False
  end.

Definition uses_driver (d : nat) (ev : Event) : Prop :=
  match ev with
  | EvDriverGet d' _ => d' = d
  | _ => False
  end.

(** The time of the latest dispatch of the resource named [nm] in a
    trace (newest first). *)
Fixpoint last_dispatch (nm : string) (tr : list Event) : option Z :=
  match tr with
  | [] => None
  | EvChecking s t :: rest =>
      if bool_decide (name s = nm) then Some t else last_dispatch nm rest
  | _ :: rest => last_dispatch nm rest
  end.

(** What a step may do without disturbing the scheduler's bookkeeping:
    add events other than dispatches and uses of retired handles, keep
    every [last_run], and keep retired handles retired. *)
Definition frame (w w' : World) : Prop :=
  extends (λ ev, ¬ is_checking ev) w w'
  ∧ (∀ k, last_run <$> (STATE w' !! k) = last_run <$> (STATE w !! k))
  ∧ (∀ d, retired d w → retired d w' ∧ extends (λ ev, ¬ uses_driver d ev) w w').

(** Every dispatch in the trace comes no sooner than the dispatched
    site's interval after the previous dispatch of the same resource. *)
Fixpoint spaced (tr : list Event) : Prop :=
  match tr with
  | [] => True
  | EvChecking s t :: rest =>
      (∀ t0, last_dispatch (name s) rest = Some t0 →
             interval s * 1000000 ≤ t - t0)
      ∧ spaced rest
  | _ :: rest => spaced rest
  end.

(** The scheduler's bookkeeping: every stored [last_run] is the time of
    the resource's latest dispatch, and the dispatches so far are spaced. *)
Definition bookkeeping (w : World) : Prop :=
  (∀ k st, STATE w !! k = Some st → last_run st = last_dispatch k (trace w))
  ∧ spaced (trace w).

(** What every step of the scheduler guarantees: no entry of [STATE]
    disappears, the books stay kept, retired handles stay unused. *)
Definition sound_step (w w' : World) : Prop :=
  (∀ k, is_Some (STATE w !! k) → is_Some (STATE w' !! k))
  ∧ (bookkeeping w → bookkeeping w')
  ∧ (∀ d, retired d w → retired d w' ∧ extends (λ ev, ¬ uses_driver d ev) w w').

(** ** Sample data

    A concrete stand-in for the builtin [hash] (any function will do: the
    program relies on nothing but its being a function), and the two
    sites of the shipped [SITES]. *)

Definition sample_hash (s : string) : Z :=
  foldl (fun h c => h * 31 + Z.of_N (Ascii.N_of_ascii c)) 7 (String.list_ascii_of_string s) - 5000.

(** A stand-in for [repr]: right for keys made of letters and digits. *)
Definition sample_repr (s : string) : string := "'" +:+ s +:+ "'".

Definition StaticSite : Site := mkSite "StaticSite" "https://example.com/static" 300 false.
Definition JSApp : Site := mkSite "JSApp" "https://example.com/dynamic" 600 true.
Definition SITES : list Site := [StaticSite; JSApp].

(** A site to be looked at once a week. *)
Definition Archive : Site := mkSite "Archive" "https://example.com/archive" 604800 false.

(** A reply with status [code], body [body] and, optionally, an [ETag]. *)
Definition reply (code : Z) (body : string) (tag : option string) : Response :=
  mkResponse code body
    (match tag with
     | Some v => {[ "ETag" := v ]}
     | None => ∅
     end).

(** A well-behaved world at time [now]: the site answers 200 with [body]
    and [tag], the browser starts and renders [body]. *)
Definition calm (now : Z) (body : string) (tag : option string) : Env :=
  mkEnv now (Ok (reply 200 body tag)) (Ok tt) (Ok tt) (Ok body) (Ok tt).

(** The world after [StaticSite] was last checked at time 0 with body
    [body], when the stored validator is [tag]. *)
Definition seen (tag : option string) (body : string) : World :=
  mkWorld
    (<[ "StaticSite" := mkState (Some 0) tag (Some (simple_hash sample_hash body)) ]>
       (init_STATE SITES))
    None 0%nat [].

(** The network is down and the browser cannot start. *)
Definition outage (now : Z) : Env :=
  mkEnv now (Raise "timed out") (Raise "no chromedriver") (Ok tt) (Ok EmptyString) (Ok tt).

(** The browser starts, then crashes while loading the page; closing it
    fails as well. *)
Definition crash (now : Z) : Env :=
  mkEnv now (Raise "timed out") (Ok tt) (Raise "page crash") (Ok EmptyString) (Raise "gone").

(** The letter [a], to fill long pages with. *)
Definition filler : Ascii.ascii :=
  Ascii.Ascii true false false false false true true false.

(** Another stand-in for [hash], cheap on long pages. *)
Definition length_hash (s : string) : Z := Z.of_nat (String.length s) - 1.

(** The world a dispatched check leaves behind ([w] if it raised). *)
Definition after (r : result ((bool * string) * World)) (w : World) : World :=
  match r with
  | Ok (_, w') => w'
  | Raise _ => w
  end.

(** ** Further vocabulary *)

(** The number of characters a check fingerprints: [text[:5000]] on line
    82, [html[:10000]] on line 101. *)
Definition examined (site : Site) : nat :=
  if needs_js site then 10000%nat else 5000%nat.

(** A check obtains the page [page] (the whole body, before slicing). *)
Inductive obtains_page (site : Site) (env : Env) (w : World) : string -> Prop :=
| page_by_requests r :
    needs_js site = false →
    requests_get env = Ok r → status_code r = 200 →
    obtains_page site env w (text r)
| page_by_selenium d u html :
    needs_js site = true →
    fst (ensure_driver env w) = Some d →
    driver_get env = Ok u → page_source env = Ok html →
    obtains_page site env w html.

(** Events written by the scheduler itself, by the browser side, and by
    the HTTP side. *)
Definition scheduler_event (ev : Event) : Prop :=
  match ev with
  | EvChecking _ _ | EvReport _ _ _ => True
  | _ => False
  end.

Definition driver_event (ev : Event) : Prop :=
  match ev with
  | EvMakeDriver | EvDriverGet _ _ | EvQuit _ => True
  | _ => False
  end.

Definition http_event (ev : Event) : Prop :=
  match ev with
  | EvHttpGet _ _ => True
  | _ => False
  end.

(** How many dispatches, and how many reports, a trace holds. *)
Fixpoint dispatches (tr : list Event) : nat :=
  match tr with
  | [] => 0
  | EvChecking _ _ :: rest => S (dispatches rest)
  | _ :: rest => dispatches rest
  end.

Fixpoint reports (tr : list Event) : nat :=
  match tr with
  | [] => 0
  | EvReport _ _ _ :: rest => S (reports rest)
  | _ :: rest => reports rest
  end.

(** How many times [quit] was called on driver [d]. *)
Fixpoint quits (d : nat) (tr : list Event) : nat :=
  match tr with
  | [] => 0
  | EvQuit d' :: rest => (if bool_decide (d' = d) then 1 else 0) + quits d rest
  | _ :: rest => quits d rest
  end.

(** The account of drivers: a live driver is the one built last, and
    [quit] has been called once on every driver built that is not live,
    and never on any other. *)
Definition drivers_accounted (w : World) : Prop :=
  (∀ d, driver w = Some d → spawned w = S d)
  ∧ ∀ d, quits d (trace w)
         = if decide ((d < spawned w)%nat ∧ driver w ≠ Some d) then 1%nat else 0%nat.

(** A string of [n] copies of [c]. *)
Fixpoint nchars (n : nat) (c : Ascii.ascii) : string :=
  match n with
  | O => EmptyString
  | S n' => String c (nchars n' c)
  end.

(** * Properties *)

(** ** Reasons and outcomes *)

Lemma outcome_changed reason : outcome_of (true, reason) = Changed.
Proof. reflexivity. Qed.

Lemma outcome_not_modified : outcome_of (false, "not modified") = Unchanged.
Proof. reflexivity. Qed.

Lemma outcome_no_change : outcome_of (false, "no change") = Unchanged.
Proof. reflexivity. Qed.

Lemma outcome_no_driver : outcome_of (false, "no driver") = Error.
Proof. reflexivity. Qed.

Lemma outcome_error e : outcome_of (false, "error: " +:+ e) = Error.
Proof.
  unfold outcome_of; simpl fst; simpl snd; cbv iota.
  rewrite bool_decide_eq_false_2; [done|].
  simpl. intros [H|H]; discriminate H.
Qed.

Lemma outcome_status (code : Z) : outcome_of (false, "status " +:+ pretty code) = Error.
Proof.
  unfold outcome_of; simpl fst; simpl snd; cbv iota.
  rewrite bool_decide_eq_false_2; [done|].
  simpl. intros [H|H]; discriminate H.
Qed.

(** ** The fingerprint *)

Lemma simple_hash_range hash content : 0 ≤ simple_hash hash content < 2 ^ 32.
Proof.
  unfold simple_hash.
  change 0xffffffff with (Z.ones 32).
  rewrite Z.land_ones by lia.
  apply Z.mod_pos_bound. lia.
Qed.

(** ** Selenium driver *)

Lemma ensure_driver_live env w d :
  driver w = Some d → ensure_driver env w = (Some d, w).
Proof. unfold ensure_driver. by intros ->. Qed.

Lemma ensure_driver_STATE env w : STATE (snd (ensure_driver env w)) = STATE w.
Proof.
  unfold ensure_driver.
  destruct (driver w); [done|]. by destruct (make_driver env).
Qed.

Lemma ensure_driver_result env w :
  driver (snd (ensure_driver env w)) = fst (ensure_driver env w).
Proof.
  unfold ensure_driver.
  destruct (driver w) eqn:Hd; [done|]. by destruct (make_driver env).
Qed.

Lemma selenium_failed_STATE d e env w :
  STATE (snd (selenium_failed d e env w)) = STATE w.
Proof. unfold selenium_failed. by destruct (driver_quit env). Qed.

Lemma selenium_failed_eq d e env w :
  selenium_failed d e env w =
  ((false, "error: " +:+ e),
   mkWorld (STATE w) None (spawned w)
           (EvQuit d :: EvPrint ("Selenium error: " +:+ e) :: trace w)).
Proof. unfold selenium_failed. by destruct (driver_quit env). Qed.

(** ** The conditional fetch, path by path *)

Section Requests.
Variable hash : string -> Z.
Variables (site : Site) (env : Env) (w : World) (st : SiteState).
Hypothesis Hst : STATE w !! name site = Some st.

#[local] Abbreviation w1 := (emit (EvHttpGet (url site) (request_headers st)) w).

Lemma requests_transport_error e :
  requests_get env = Raise e →
  check_with_requests hash site env w = Ok ((false, "error: " +:+ e), w1).
Proof. intros He. unfold check_with_requests. by rewrite Hst, He. Qed.

Lemma requests_304 r :
  requests_get env = Ok r → status_code r = 304 →
  check_with_requests hash site env w = Ok ((false, "not modified"), w1).
Proof.
  intros Hr Hs. unfold check_with_requests. by rewrite Hst, Hr, Hs.
Qed.

Lemma requests_bad_status r :
  requests_get env = Ok r → status_code r ≠ 304 → status_code r ≠ 200 →
  check_with_requests hash site env w
  = Ok ((false, "status " +:+ pretty (status_code r)), w1).
Proof.
  intros Hr H304 H200. unfold check_with_requests. rewrite Hst, Hr.
  destruct (Z.eqb_spec (status_code r) 304); [done|].
  destruct (Z.eqb_spec (status_code r) 200); done.
Qed.

Lemma requests_same_hash r :
  requests_get env = Ok r → status_code r = 200 →
  last_hash st = Some (simple_hash hash (prefix 5000 (text r))) →
  check_with_requests hash site env w
  = Ok ((false, "no change"), emit (EvHash (prefix 5000 (text r))) w1).
Proof.
  intros Hr Hs Hh. unfold check_with_requests. rewrite Hst, Hr, Hs. simpl.
  by rewrite bool_decide_eq_true_2.
Qed.

Lemma requests_new_hash r :
  requests_get env = Ok r → status_code r = 200 →
  last_hash st ≠ Some (simple_hash hash (prefix 5000 (text r))) →
  check_with_requests hash site env w
  = Ok ((true, "changed"),
        set_site_state (name site)
          (let st1 := set_last_hash (simple_hash hash (prefix 5000 (text r))) st in
           match headers r !! "ETag" with
           | Some v => set_etag v st1
           | None => st1
           end)
          (emit (EvHash (prefix 5000 (text r))) w1)).
Proof.
  intros Hr Hs Hh. unfold check_with_requests. rewrite Hst, Hr, Hs. simpl.
  by rewrite bool_decide_eq_false_2.
Qed.

(** Every way [check_with_requests] can end. *)
Lemma requests_cases :
  (∃ e, requests_get env = Raise e ∧
        check_with_requests hash site env w = Ok ((false, "error: " +:+ e), w1)) ∨
  (∃ r, requests_get env = Ok r ∧ status_code r = 304 ∧
        check_with_requests hash site env w = Ok ((false, "not modified"), w1)) ∨
  (∃ r, requests_get env = Ok r ∧ status_code r ≠ 304 ∧ status_code r ≠ 200 ∧
        check_with_requests hash site env w
        = Ok ((false, "status " +:+ pretty (status_code r)), w1)) ∨
  (∃ r, requests_get env = Ok r ∧ status_code r = 200 ∧
        last_hash st = Some (simple_hash hash (prefix 5000 (text r))) ∧
        check_with_requests hash site env w
        = Ok ((false, "no change"), emit (EvHash (prefix 5000 (text r))) w1)) ∨
  (∃ r, requests_get env = Ok r ∧ status_code r = 200 ∧
        last_hash st ≠ Some (simple_hash hash (prefix 5000 (text r))) ∧
        ∃ st', check_with_requests hash site env w
               = Ok ((true, "changed"),
                     set_site_state (name site) st'
                       (emit (EvHash (prefix 5000 (text r))) w1)) ∧
               last_hash st' = Some (simple_hash hash (prefix 5000 (text r))) ∧
               last_run st' = last_run st ∧
               etag st' = match headers r !! "ETag" with
                          | Some v => Some v
                          | None => etag st
                          end).
Proof.
  destruct (requests_get env) as [r|e] eqn:Hr.
  2: { left. eauto using requests_transport_error. }
  destruct (decide (status_code r = 304)) as [H304|H304].
  { right; left. eauto using requests_304. }
  destruct (decide (status_code r = 200)) as [H200|H200].
  2: { do 2 right; left. eauto 6 using requests_bad_status. }
  destruct (decide (last_hash st = Some (simple_hash hash (prefix 5000 (text r)))))
    as [Hh|Hh].
  { do 3 right; left. eauto 6 using requests_same_hash. }
  do 4 right. exists r. split_and!; try done.
  eexists. split; [by apply requests_new_hash|].
  simpl. by destruct (headers r !! "ETag").
Qed.

End Requests.

(** ** The rendered fetch, path by path *)

Section Selenium.
Variable hash : string -> Z.
Variable repr : string -> string.
Variables (site : Site) (env : Env) (w : World).

#[local] Abbreviation w0 := (snd (ensure_driver env w)).

Lemma selenium_no_driver :
  fst (ensure_driver env w) = None →
  check_with_selenium hash repr site env w = ((false, "no driver"), w0).
Proof.
  intros Hd. unfold check_with_selenium.
  destruct (ensure_driver env w) as [od w']. simpl in *. by subst od.
Qed.

Lemma selenium_get_raises d e :
  fst (ensure_driver env w) = Some d → driver_get env = Raise e →
  check_with_selenium hash repr site env w
  = selenium_failed d e env (emit (EvDriverGet d (url site)) w0).
Proof.
  intros Hd He. unfold check_with_selenium.
  destruct (ensure_driver env w) as [od w']. simpl in *. subst od.
  by rewrite He.
Qed.

Lemma selenium_source_raises d u e :
  fst (ensure_driver env w) = Some d → driver_get env = Ok u →
  page_source env = Raise e →
  check_with_selenium hash repr site env w
  = selenium_failed d e env
      (emit (EvSleep 1) (emit (EvDriverGet d (url site)) w0)).
Proof.
  intros Hd Hg He. unfold check_with_selenium.
  destruct (ensure_driver env w) as [od w']. simpl in *. subst od.
  by rewrite Hg, He.
Qed.

Lemma selenium_rendered d u html st :
  fst (ensure_driver env w) = Some d → driver_get env = Ok u →
  page_source env = Ok html → STATE w !! name site = Some st →
  check_with_selenium hash repr site env w
  = let h := simple_hash hash (prefix 10000 html) in
    let w3 := emit (EvHash (prefix 10000 html))
                (emit (EvSleep 1) (emit (EvDriverGet d (url site)) w0)) in
    if bool_decide (last_hash st = Some h)
    then ((false, "no change"), w3)
    else ((true, "changed"),
          set_site_state (name site) (set_last_hash h st) w3).
Proof.
  intros Hd Hg Hp Hst. unfold check_with_selenium.
  pose proof (ensure_driver_STATE env w) as HS.
  destruct (ensure_driver env w) as [od w']. simpl in *. subst od.
  rewrite Hg, Hp. simpl. by rewrite HS, Hst.
Qed.

Lemma selenium_missing_state d u html :
  fst (ensure_driver env w) = Some d → driver_get env = Ok u →
  page_source env = Ok html → STATE w !! name site = None →
  check_with_selenium hash repr site env w
  = selenium_failed d (repr (name site)) env
      (emit (EvHash (prefix 10000 html))
         (emit (EvSleep 1) (emit (EvDriverGet d (url site)) w0))).
Proof.
  intros Hd Hg Hp Hst. unfold check_with_selenium.
  pose proof (ensure_driver_STATE env w) as HS.
  destruct (ensure_driver env w) as [od w']. simpl in *. subst od.
  rewrite Hg, Hp. simpl. by rewrite HS, Hst.
Qed.

(** A check that reports an error has not written to [STATE]. *)
Lemma selenium_error_STATE :
  outcome_of (fst (check_with_selenium hash repr site env w)) = Error →
  STATE (snd (check_with_selenium hash repr site env w)) = STATE w.
Proof.
  intros Hout.
  destruct (fst (ensure_driver env w)) as [d|] eqn:Hd.
  2: { rewrite selenium_no_driver by done. apply ensure_driver_STATE. }
  destruct (driver_get env) as [u|e] eqn:Hg.
  2: { rewrite (selenium_get_raises d e) by done.
       rewrite selenium_failed_STATE. apply ensure_driver_STATE. }
  destruct (page_source env) as [html|e] eqn:Hp.
  2: { rewrite (selenium_source_raises d u e) by done.
       rewrite selenium_failed_STATE. apply ensure_driver_STATE. }
  destruct (STATE w !! name site) as [st|] eqn:Hst.
  2: { rewrite (selenium_missing_state d u html) by done.
       rewrite selenium_failed_STATE. apply ensure_driver_STATE. }
  revert Hout. rewrite (selenium_rendered d u html st) by done.
  cbv zeta. case_bool_decide; simpl; [|done].
  intros _. apply ensure_driver_STATE.
Qed.

End Selenium.

(** ** The claims about single checks *)

(** C9: [simple_hash] is deterministic (identical content gives identical
    digests) and its result always lies in [0, 2^32). *)
Theorem simple_hash_deterministic_32bit (hash : string -> Z) (a b : string) :
  a = b →
  simple_hash hash a = simple_hash hash b ∧ 0 ≤ simple_hash hash a < 2 ^ 32.
Proof. intros ->. split; [done|]. apply simple_hash_range. Qed.

Lemma simple_hash_deterministic_32bit_witness :
  simple_hash sample_hash "X" = simple_hash sample_hash "X"
  ∧ 0 ≤ simple_hash sample_hash "X" < 2 ^ 32.
Proof. apply (simple_hash_deterministic_32bit sample_hash "X" "X"). reflexivity. Defined.

(** C6: a 304 reply ends the conditional check at once with the pair
    [(False, "not modified")], read as Unchanged; the only thing the check
    did was the request itself (no [simple_hash] call was made, and the
    result mentions neither [hash] nor the reply's body), and [STATE],
    hence the stored fingerprint and validator, is as before. *)
Theorem not_modified_short_circuit (hash : string -> Z) site env w st r :
  STATE w !! name site = Some st →
  requests_get env = Ok r →
  status_code r = 304 →
  ∃ w', check_with_requests hash site env w = Ok ((false, "not modified"), w')
        ∧ outcome_of (false, "not modified") = Unchanged
        ∧ trace w' = EvHttpGet (url site) (request_headers st) :: trace w
        ∧ STATE w' = STATE w
        ∧ (∃ st', STATE w' !! name site = Some st'
                  ∧ last_hash st' = last_hash st ∧ etag st' = etag st).
Proof.
  intros Hst Hr Hs. eexists. split; [by eapply requests_304|].
  split_and!; try done. exists st. by simpl.
Qed.

Lemma not_modified_short_circuit_witness :
  ∃ w', check_with_requests sample_hash StaticSite
          (mkEnv 400000000 (Ok (reply 304 EmptyString None)) (Ok tt) (Ok tt) (Ok EmptyString) (Ok tt))
          (seen (Some "v1") "X") = Ok ((false, "not modified"), w')
        ∧ outcome_of (false, "not modified") = Unchanged
        ∧ trace w' = EvHttpGet (url StaticSite)
                       (request_headers
                          (mkState (Some 0) (Some "v1") (Some (simple_hash sample_hash "X"))))
                     :: trace (seen (Some "v1") "X")
        ∧ STATE w' = STATE (seen (Some "v1") "X")
        ∧ (∃ st', STATE w' !! name StaticSite = Some st'
                  ∧ last_hash st' = Some (simple_hash sample_hash "X")
                  ∧ etag st' = Some "v1").
Proof.
  apply (not_modified_short_circuit sample_hash StaticSite
           (mkEnv 400000000 (Ok (reply 304 EmptyString None)) (Ok tt) (Ok tt) (Ok EmptyString) (Ok tt))
           (seen (Some "v1") "X")
           (mkState (Some 0) (Some "v1") (Some (simple_hash sample_hash "X")))
           (reply 304 EmptyString None)); reflexivity.
Defined.

(** C7: with no fingerprint stored, a check that obtains content (a 200
    reply, or a rendered page) returns [(True, "changed")], read as
    Changed, and stores the digest of the examined prefix: the absent
    fingerprint is equal to no digest. *)
Theorem first_content_is_changed (hash : string -> Z) (repr : string -> string) site env w st content :
  STATE w !! name site = Some st →
  last_hash st = None →
  obtains_content site env w content →
  ∃ w' st', dispatch hash repr site env w = Ok ((true, "changed"), w')
            ∧ outcome_of (true, "changed") = Changed
            ∧ last_hash st ≠ Some (simple_hash hash content)
            ∧ STATE w' !! name site = Some st'
            ∧ last_hash st' = Some (simple_hash hash content).
Proof.
  intros Hst Hnone Hc. unfold dispatch.
  destruct Hc as [r Hjs Hr Hs|d u html Hjs Hd Hg Hp]; rewrite Hjs; simpl.
  - rewrite (requests_new_hash hash site env w st Hst r) by congruence.
    eexists _, _. split; [done|]. split_and!; [done|congruence| |].
    + simpl. by rewrite lookup_insert_eq.
    + by destruct (headers r !! "ETag").
  - rewrite (selenium_rendered hash repr site env w d u html st) by done.
    cbv zeta. rewrite bool_decide_eq_false_2 by congruence.
    eexists _, _. split; [done|].
    split_and!; [done|congruence|simpl; by rewrite lookup_insert_eq|done].
Qed.

Lemma first_content_is_changed_witness :
  (∃ w' st', dispatch sample_hash sample_repr StaticSite (calm 0 "X" None) (init_world SITES)
             = Ok ((true, "changed"), w')
             ∧ outcome_of (true, "changed") = Changed
             ∧ last_hash fresh_state ≠ Some (simple_hash sample_hash "X")
             ∧ STATE w' !! name StaticSite = Some st'
             ∧ last_hash st' = Some (simple_hash sample_hash "X"))
  ∧ (∃ w' st', dispatch sample_hash sample_repr JSApp (calm 0 "page" None) (init_world SITES)
               = Ok ((true, "changed"), w')
               ∧ outcome_of (true, "changed") = Changed
               ∧ last_hash fresh_state ≠ Some (simple_hash sample_hash "page")
               ∧ STATE w' !! name JSApp = Some st'
               ∧ last_hash st' = Some (simple_hash sample_hash "page")).
Proof.
  split.
  - apply (first_content_is_changed sample_hash sample_repr StaticSite (calm 0 "X" None)
             (init_world SITES) fresh_state "X"); [reflexivity|reflexivity|].
    apply (obtained_by_requests StaticSite (calm 0 "X" None) (init_world SITES)
             (reply 200 "X" None)); reflexivity.
  - apply (first_content_is_changed sample_hash sample_repr JSApp (calm 0 "page" None)
             (init_world SITES) fresh_state "page"); [reflexivity|reflexivity|].
    apply (obtained_by_selenium JSApp (calm 0 "page" None) (init_world SITES)
             0%nat tt "page"); reflexivity.
Defined.

(** C3: a check that ends in an Error outcome has not written to [STATE]:
    the stored fingerprint and validator of the resource are what they
    were.  Each kind of failure (transport failure, status other than 200
    and 304, render failure, missing rendering instance) does end in an
    Error outcome. *)
Theorem error_leaves_fingerprint_and_validator (hash : string -> Z) (repr : string -> string) site env w st :
  STATE w !! name site = Some st →
  ∃ out w', dispatch hash repr site env w = Ok (out, w')
            ∧ (check_fails site env w → outcome_of out = Error)
            ∧ (outcome_of out = Error →
               STATE w' = STATE w
               ∧ ∃ st', STATE w' !! name site = Some st'
                        ∧ last_hash st' = last_hash st ∧ etag st' = etag st).
Proof.
  intros Hst.
  assert (∀ out w', (outcome_of out = Error → STATE w' = STATE w) →
            outcome_of out = Error →
            STATE w' = STATE w
            ∧ ∃ st', STATE w' !! name site = Some st'
                     ∧ last_hash st' = last_hash st ∧ etag st' = etag st) as Hfin.
  { intros out w' H Hout. split; [by apply H|]. exists st. by rewrite (H Hout). }
  unfold dispatch, check_fails. destruct (needs_js site); simpl.
  - destruct (check_with_selenium hash repr site env w) as [out w'] eqn:Hc.
    exists out, w'. split; [done|]. split.
    + assert (out = fst (check_with_selenium hash repr site env w)) as ->
        by by rewrite Hc.
      intros [Hd|[[e He]|[e He]]].
      * by rewrite selenium_no_driver.
      * destruct (fst (ensure_driver env w)) as [d|] eqn:Hd;
          [|by rewrite selenium_no_driver].
        rewrite (selenium_get_raises hash repr site env w d e) by done.
        rewrite selenium_failed_eq. apply outcome_error.
      * destruct (fst (ensure_driver env w)) as [d|] eqn:Hd;
          [|by rewrite selenium_no_driver].
        destruct (driver_get env) as [u|e'] eqn:Hg.
        -- rewrite (selenium_source_raises hash repr site env w d u e) by done.
           rewrite selenium_failed_eq. apply outcome_error.
        -- rewrite (selenium_get_raises hash repr site env w d e') by done.
           rewrite selenium_failed_eq. apply outcome_error.
    + apply Hfin. intros Hout.
      pose proof (selenium_error_STATE hash repr site env w) as HS.
      rewrite Hc in HS. by apply HS.
  - destruct (requests_cases hash site env w st Hst)
      as [(e&He&Hc)|[(r&Hr&Hs&Hc)|[(r&Hr&H304&H200&Hc)|[(r&Hr&Hs&Hh&Hc)|(r&Hr&Hs&Hh&st'&Hc&_)]]]];
      rewrite Hc; eexists _, _; (split; [done|]); split;
      try (apply Hfin; done);
      try (intros _; first [apply outcome_error|apply outcome_status]).
    all: intros [[e' He']|(r'&Hr'&?&?)]; congruence.
Qed.

Lemma error_leaves_fingerprint_and_validator_witness :
  ∃ out w',
    dispatch sample_hash sample_repr StaticSite
      (outage 0)
      (init_world SITES) = Ok (out, w')
    ∧ (check_fails StaticSite
         (outage 0)
         (init_world SITES) → outcome_of out = Error)
    ∧ (outcome_of out = Error →
       STATE w' = STATE (init_world SITES)
       ∧ ∃ st', STATE w' !! name StaticSite = Some st'
                ∧ last_hash st' = last_hash fresh_state
                ∧ etag st' = etag fresh_state).
Proof.
  apply (error_leaves_fingerprint_and_validator sample_hash sample_repr StaticSite
           (outage 0)
           (init_world SITES) fresh_state).
  reflexivity.
Defined.

(** ** The scheduler's visit of one site *)

Lemma visit_not_due hash repr site env w st :
  STATE w !! name site = Some st →
  due site st (utcnow env) = false →
  visit hash repr site env w = Ok w.
Proof. intros Hst Hd. unfold visit. by rewrite Hst, Hd. Qed.

Lemma visit_due hash repr site env w st :
  STATE w !! name site = Some st →
  due site st (utcnow env) = true →
  visit hash repr site env w
  = (r ← dispatch hash repr site env
           (emit (EvChecking site (utcnow env))
              (set_site_state (name site) (set_last_run (utcnow env) st) w));
     Ok (emit (EvSleep 2)
           (emit (EvReport (name site) (fst (fst r)) (snd (fst r))) (snd r)))).
Proof. intros Hst Hd. unfold visit. by rewrite Hst, Hd. Qed.

(** C2 (as the code has it): when a due conditional check finds the
    computed fingerprint equal to the stored one, it reports "no change"
    and the resource's state differs from before the visit in the
    last-check time only; the stored validator stays as it was, whether or
    not the reply carried an [ETag]. *)
Theorem unchanged_keeps_state_but_last_run (hash : string -> Z) (repr : string -> string) site env w st r :
  STATE w !! name site = Some st →
  needs_js site = false →
  due site st (utcnow env) = true →
  requests_get env = Ok r →
  status_code r = 200 →
  last_hash st = Some (simple_hash hash (prefix 5000 (text r))) →
  ∃ w', visit hash repr site env w = Ok w'
        ∧ (∃ evs, trace w' = EvSleep 2 :: EvReport (name site) false "no change" :: evs)
        ∧ outcome_of (false, "no change") = Unchanged
        ∧ STATE w' = <[name site := set_last_run (utcnow env) st]> (STATE w)
        ∧ ∃ st', STATE w' !! name site = Some st'
                 ∧ last_run st' = Some (utcnow env)
                 ∧ last_hash st' = last_hash st
                 ∧ etag st' = etag st.
Proof.
  intros Hst Hjs Hdue Hr Hs Hh.
  rewrite (visit_due hash repr site env w st Hst Hdue).
  unfold dispatch. rewrite Hjs. simpl negb. cbv iota.
  erewrite requests_same_hash; [|simpl; apply lookup_insert_eq|done|done|done].
  simpl. eexists. split; [done|]. split_and!; [by eexists|done|done|].
  eexists. simpl. rewrite lookup_insert_eq. done.
Qed.

Lemma unchanged_keeps_state_but_last_run_witness :
  ∃ w', visit sample_hash sample_repr StaticSite (calm 400000000 "X" (Some "v2")) (seen (Some "v1") "X")
        = Ok w'
        ∧ (∃ evs, trace w' = EvSleep 2 :: EvReport (name StaticSite) false "no change" :: evs)
        ∧ outcome_of (false, "no change") = Unchanged
        ∧ STATE w' = <[name StaticSite :=
                         set_last_run 400000000
                           (mkState (Some 0) (Some "v1") (Some (simple_hash sample_hash "X")))]>
                       (STATE (seen (Some "v1") "X"))
        ∧ ∃ st', STATE w' !! name StaticSite = Some st'
                 ∧ last_run st' = Some 400000000
                 ∧ last_hash st' = Some (simple_hash sample_hash "X")
                 ∧ etag st' = Some "v1".
Proof.
  apply (unchanged_keeps_state_but_last_run sample_hash sample_repr StaticSite
           (calm 400000000 "X" (Some "v2")) (seen (Some "v1") "X")
           (mkState (Some 0) (Some "v1") (Some (simple_hash sample_hash "X")))
           (reply 200 "X" (Some "v2"))); reflexivity.
Defined.

(** C2 as stated fails: the reply is a 200 with the stored body and a new
    validator "v2"; the check ends Unchanged and "v1" is still stored. *)
Lemma unchanged_drops_new_validator :
  ∃ r out w' st',
    requests_get (calm 400000000 "X" (Some "v2")) = Ok r
    ∧ status_code r = 200
    ∧ headers r !! "ETag" = Some "v2"
    ∧ check_with_requests sample_hash StaticSite
        (calm 400000000 "X" (Some "v2")) (seen (Some "v1") "X") = Ok (out, w')
    ∧ outcome_of out = Unchanged
    ∧ STATE w' !! "StaticSite" = Some st'
    ∧ etag st' = Some "v1"
    ∧ etag st' ≠ Some "v2".
Proof.
  eexists _, _, _, _. split_and!; try reflexivity. discriminate.
Qed.

(** ** What a check adds to the trace *)

(** Exhibit the events a step has put in front of the old trace. *)
Ltac new_events :=
  lazymatch goal with
  | |- ∃ evs, ?tr = evs ++ ?old ∧ _ =>
      let rec go t :=
        lazymatch t with
        | old => constr:(@nil Event)
        | ?e :: ?t' => let r := go t' in constr:(e :: r)
        end in
      let evs := go tr in
      exists evs; split; [reflexivity|]
  end.

Ltac in_events H :=
  repeat (apply elem_of_cons in H as [H|H]; [try discriminate H; try by inversion H|]);
  try by apply elem_of_nil in H.

Lemma request_headers_replay st v :
  etag st = Some v → v ≠ EmptyString →
  request_headers st = {[ "If-None-Match" := v ]}.
Proof.
  intros He Hv. unfold request_headers. rewrite He.
  destruct v; [done|]. reflexivity.
Qed.

Lemma requests_trace hash site env w st out w' :
  STATE w !! name site = Some st →
  check_with_requests hash site env w = Ok (out, w') →
  ∃ evs, trace w' = evs ++ EvHttpGet (url site) (request_headers st) :: trace w
         ∧ ∀ ev, ev ∈ evs → ∃ content, ev = EvHash content.
Proof.
  intros Hst Hc.
  destruct (requests_cases hash site env w st Hst)
    as [(e&_&Hc')|[(r&_&_&Hc')|[(r&_&_&_&Hc')|[(r&_&_&_&Hc')|(r&_&_&_&st'&Hc'&_)]]]];
    rewrite Hc' in Hc; injection Hc as <- <-; simpl; new_events;
    intros ev Hin; in_events Hin; eauto.
Qed.

(** With no live driver, a rendered check begins by calling [make_driver],
    and the only handle it can use or leave behind is the one just built. *)
Lemma selenium_trace_rebuild hash repr site env w :
  driver w = None →
  ∃ evs, trace (snd (check_with_selenium hash repr site env w))
         = evs ++ EvMakeDriver :: trace w
         ∧ (∀ d u, EvDriverGet d u ∈ evs → d = spawned w)
         ∧ (∀ d, driver (snd (check_with_selenium hash repr site env w)) = Some d →
                 d = spawned w).
Proof.
  intros Hd. unfold check_with_selenium, ensure_driver, selenium_failed.
  rewrite Hd.
  destruct (make_driver env), (driver_get env), (page_source env),
    (driver_quit env); simpl; try destruct (STATE w !! name site);
    simpl; try case_bool_decide; simpl; new_events;
    (split; [intros d' u' Hin; in_events Hin|intros d' Hd'; by inversion Hd']).
Qed.

Lemma request_headers_stored st v :
  etag st = Some v →
  request_headers st
  = if decide (v = EmptyString) then ∅ else {[ "If-None-Match" := v ]}.
Proof.
  intros He. unfold request_headers. rewrite He. by destruct v.
Qed.

(** C10 (as the code has it): a stored validator, empty or not, is never
    reset to absent, whatever the reply, and it survives unchanged every
    conditional check whose reply is not a 200 carrying an [ETag] header
    (in particular a 200 reply without one); the next fetch sends it as
    [If-None-Match] when it is not the empty string, and sends no
    conditional header when it is. *)
Theorem stored_validator_retained_and_replayed
    (hash : string -> Z) site env env' w st v :
  STATE w !! name site = Some st →
  etag st = Some v →
  (∀ r, requests_get env = Ok r → status_code r = 200 →
        headers r !! "ETag" = None) →
  (∀ env0 out0 w0 st0,
      check_with_requests hash site env0 w = Ok (out0, w0) →
      STATE w0 !! name site = Some st0 → is_Some (etag st0))
  ∧ ∃ out w' st',
      check_with_requests hash site env w = Ok (out, w')
      ∧ STATE w' !! name site = Some st'
      ∧ etag st' = Some v
      ∧ ∃ out2 w'' evs,
          check_with_requests hash site env' w' = Ok (out2, w'')
          ∧ trace w''
            = evs ++ EvHttpGet (url site)
                       (if decide (v = EmptyString) then ∅
                        else {[ "If-None-Match" := v ]})
                     :: trace w'.
Proof.
  intros Hst He Hno. split.
  - intros env0 out0 w0 st0 Hc Hst0.
    destruct (requests_cases hash site env0 w st Hst)
      as [(e&_&Hc')|[(r&_&_&Hc')|[(r&_&_&_&Hc')|[(r&_&_&_&Hc')|(r&_&_&_&st'&Hc'&_&_&He')]]]];
      rewrite Hc' in Hc; injection Hc as <- <-; simpl in Hst0;
      try (rewrite Hst in Hst0; injection Hst0 as <-; by rewrite He).
    rewrite lookup_insert_eq in Hst0. injection Hst0 as <-.
    rewrite He'. destruct (headers r !! "ETag"); by rewrite ?He.
  - assert (∃ out w' st', check_with_requests hash site env w = Ok (out, w')
                          ∧ STATE w' !! name site = Some st' ∧ etag st' = Some v)
      as (out & w' & st' & Hc & Hst' & He').
    { destruct (requests_cases hash site env w st Hst)
        as [(e&_&Hc)|[(r&_&_&Hc)|[(r&_&_&_&Hc)|[(r&_&_&_&Hc)|(r&Hr&Hs&_&st'&Hc&_&_&He')]]]];
        rewrite Hc; try by (eexists _, _, st).
      eexists _, _, st'. split; [done|]. simpl. rewrite lookup_insert_eq.
      split; [done|]. by rewrite He', (Hno r Hr Hs). }
    exists out, w', st'. split_and!; try done.
    destruct (requests_cases hash site env' w' st' Hst')
      as [(e&_&Hc2)|[(r&_&_&Hc2)|[(r&_&_&_&Hc2)|[(r&_&_&_&Hc2)|(r&_&_&_&st2&Hc2&_)]]]].
    all: destruct (requests_trace hash site env' w' st' _ _ Hst' Hc2) as (evs & Htr & _).
    all: eexists _, _, evs; split; [exact Hc2|].
    all: by rewrite Htr, (request_headers_stored st' v).
Qed.

Lemma stored_validator_retained_and_replayed_witness :
  ((∀ env0 out0 w0 st0,
      check_with_requests sample_hash StaticSite env0 (seen (Some "v1") "X") = Ok (out0, w0) →
      STATE w0 !! name StaticSite = Some st0 → is_Some (etag st0))
   ∧ ∃ out w' st',
      check_with_requests sample_hash StaticSite (calm 400000000 "Y" None)
        (seen (Some "v1") "X") = Ok (out, w')
      ∧ STATE w' !! name StaticSite = Some st'
      ∧ etag st' = Some "v1"
      ∧ ∃ out2 w'' evs,
          check_with_requests sample_hash StaticSite (calm 800000000 "Y" None) w'
          = Ok (out2, w'')
          ∧ trace w''
            = evs ++ EvHttpGet (url StaticSite)
                       (if decide ("v1" = EmptyString) then ∅
                        else {[ "If-None-Match" := "v1" ]})
                     :: trace w')
  ∧ ((∀ env0 out0 w0 st0,
        check_with_requests sample_hash StaticSite env0 (seen (Some EmptyString) "X")
        = Ok (out0, w0) →
        STATE w0 !! name StaticSite = Some st0 → is_Some (etag st0))
     ∧ ∃ out w' st',
        check_with_requests sample_hash StaticSite (calm 400000000 "Y" None)
          (seen (Some EmptyString) "X") = Ok (out, w')
        ∧ STATE w' !! name StaticSite = Some st'
        ∧ etag st' = Some EmptyString
        ∧ ∃ out2 w'' evs,
            check_with_requests sample_hash StaticSite (calm 800000000 "Y" None) w'
            = Ok (out2, w'')
            ∧ trace w''
              = evs ++ EvHttpGet (url StaticSite)
                         (if decide (EmptyString = EmptyString) then ∅
                          else {[ "If-None-Match" := EmptyString ]})
                       :: trace w').
Proof.
  split.
  - apply (stored_validator_retained_and_replayed sample_hash StaticSite
             (calm 400000000 "Y" None) (calm 800000000 "Y" None)
             (seen (Some "v1") "X")
             (mkState (Some 0) (Some "v1") (Some (simple_hash sample_hash "X")))
             "v1").
    + reflexivity.
    + reflexivity.
    + intros r Hr _. injection Hr as <-. reflexivity.
  - apply (stored_validator_retained_and_replayed sample_hash StaticSite
             (calm 400000000 "Y" None) (calm 800000000 "Y" None)
             (seen (Some EmptyString) "X")
             (mkState (Some 0) (Some EmptyString) (Some (simple_hash sample_hash "X")))
             EmptyString).
    + reflexivity.
    + reflexivity.
    + intros r Hr _. injection Hr as <-. reflexivity.
Defined.

(** C10 as stated fails for the empty validator: it is stored and kept by
    a 200 reply without [ETag], yet the next fetch carries no
    [If-None-Match]. *)
Lemma empty_validator_not_replayed :
  ∃ st out w' st' out2 w'',
    STATE (seen (Some EmptyString) "X") !! "StaticSite" = Some st
    ∧ etag st = Some EmptyString
    ∧ check_with_requests sample_hash StaticSite (calm 400000000 "Y" None)
        (seen (Some EmptyString) "X") = Ok (out, w')
    ∧ STATE w' !! "StaticSite" = Some st'
    ∧ etag st' = Some EmptyString
    ∧ check_with_requests sample_hash StaticSite (calm 800000000 "Y" None) w'
      = Ok (out2, w'')
    ∧ trace w'' = [EvHash "Y"; EvHttpGet "https://example.com/static" ∅] ++ trace w'
    ∧ (∅ : gmap string string) !! "If-None-Match" = None.
Proof.
  eexists _, _, _, _, _, _. split_and!; reflexivity.
Qed.

(** ** The rendering instance *)

Lemma ensure_driver_fails env w e :
  driver w = None → make_driver env = Raise e →
  ensure_driver env w
  = (None, mkWorld (STATE w) None (spawned w)
             (EvPrint ("Failed to start driver: " +:+ e) :: EvMakeDriver :: trace w)).
Proof. intros Hd He. unfold ensure_driver. by rewrite Hd, He. Qed.

(** C8: when [make_driver] raises, [ensure_driver] returns [None] (it
    does not raise), the rendered check returns [(False, "no driver")],
    read as Error, the driver stays absent and [STATE] is untouched; the
    next rendered check, whenever it comes and for whichever site, starts
    by calling [make_driver] again. *)
Theorem construction_failure_is_retried (hash : string -> Z) (repr : string -> string) site site' env env' w e :
  driver w = None →
  make_driver env = Raise e →
  ∃ w0, ensure_driver env w = (None, w0)
        ∧ check_with_selenium hash repr site env w = ((false, "no driver"), w0)
        ∧ outcome_of (false, "no driver") = Error
        ∧ driver w0 = None
        ∧ STATE w0 = STATE w
        ∧ ∃ evs, trace (snd (check_with_selenium hash repr site' env' w0))
                 = evs ++ EvMakeDriver :: trace w0.
Proof.
  intros Hd He. eexists.
  split; [by apply ensure_driver_fails|].
  assert (check_with_selenium hash repr site env w
          = ((false, "no driver"), snd (ensure_driver env w))) as Hc.
  { apply selenium_no_driver. by rewrite (ensure_driver_fails env w e). }
  rewrite (ensure_driver_fails env w e) in Hc by done.
  split; [exact Hc|]. split_and!; try done.
  destruct (selenium_trace_rebuild hash repr site' env'
              (mkWorld (STATE w) None (spawned w)
                 (EvPrint ("Failed to start driver: " +:+ e) :: EvMakeDriver :: trace w)))
    as (evs & Htr & _); [done|].
  by exists evs.
Qed.

Lemma construction_failure_is_retried_witness :
  ∃ w0, ensure_driver (outage 0) (init_world SITES) = (None, w0)
        ∧ check_with_selenium sample_hash sample_repr JSApp (outage 0) (init_world SITES)
          = ((false, "no driver"), w0)
        ∧ outcome_of (false, "no driver") = Error
        ∧ driver w0 = None
        ∧ STATE w0 = STATE (init_world SITES)
        ∧ ∃ evs, trace (snd (check_with_selenium sample_hash sample_repr JSApp (outage 5000000) w0))
                 = evs ++ EvMakeDriver :: trace w0.
Proof.
  apply (construction_failure_is_retried sample_hash sample_repr JSApp JSApp (outage 0)
           (outage 5000000) (init_world SITES) "no chromedriver"); reflexivity.
Defined.

(** ** Frame properties of a dispatched check *)

Lemma extends_refl P w : extends P w w.
Proof. by exists []. Qed.

Lemma extends_trans P w1 w2 w3 :
  extends P w1 w2 → extends P w2 w3 → extends P w1 w3.
Proof.
  intros (e1 & H1 & F1) (e2 & H2 & F2). exists (e2 ++ e1).
  split; [by rewrite H2, H1, app_assoc|]. by apply Forall_app.
Qed.

Lemma extends_emit (P : Event -> Prop) ev w w' :
  P ev → extends P w w' → extends P w (emit ev w').
Proof.
  intros Hev (evs & H & F). exists (ev :: evs).
  split; [simpl; by rewrite H|]. by constructor.
Qed.

Lemma insert_keeps_last_run (m : gmap string SiteState) nm st st' :
  m !! nm = Some st → last_run st' = last_run st →
  ∀ k, last_run <$> (<[nm := st']> m !! k) = last_run <$> (m !! k).
Proof.
  intros Hm Hl k. destruct (decide (nm = k)) as [<-|Hne].
  - rewrite lookup_insert_eq, Hm. simpl. by rewrite Hl.
  - by rewrite lookup_insert_ne.
Qed.

Ltac events_ok :=
  repeat first [ apply Forall_nil_2 | apply Forall_cons_2; [simpl; try tauto; try lia|] ].

Lemma requests_frame hash site env w out w' :
  check_with_requests hash site env w = Ok (out, w') → frame w w'.
Proof.
  intros Hc. destruct (STATE w !! name site) as [st|] eqn:Hst.
  2: { unfold check_with_requests in Hc. by rewrite Hst in Hc. }
  destruct (requests_cases hash site env w st Hst)
    as [(e&_&Hc')|[(r&_&_&Hc')|[(r&_&_&_&Hc')|[(r&_&_&_&Hc')|(r&_&_&_&st'&Hc'&_&Hl&_)]]]];
    rewrite Hc' in Hc; injection Hc as <- <-; unfold frame; simpl.
  5: { split_and!.
       - eexists [_; _]. split; [done|]. events_ok.
       - by apply (insert_keeps_last_run _ _ st).
       - intros d Hd. split; [exact Hd|].
         eexists [_; _]. split; [done|]. events_ok. }
  all: split_and!; [|done|intros d Hd; split; [exact Hd|]].
  all: first [ eexists [_]; split; [done|]; events_ok
             | eexists [_; _]; split; [done|]; events_ok ].
Qed.

Lemma frame_refl w : frame w w.
Proof.
  split_and!; [apply extends_refl|done|].
  intros d Hd. split; [done|apply extends_refl].
Qed.

Lemma frame_trans w1 w2 w3 : frame w1 w2 → frame w2 w3 → frame w1 w3.
Proof.
  intros (E1 & L1 & R1) (E2 & L2 & R2). split_and!.
  - by eapply extends_trans.
  - intros k. by rewrite L2, L1.
  - intros d Hd. destruct (R1 d Hd) as [Hd2 X1].
    destruct (R2 d Hd2) as [Hd3 X2]. split; [done|]. by eapply extends_trans.
Qed.

Lemma frame_emit w w' ev :
  frame w w' → ¬ is_checking ev →
  (∀ d, uses_driver d ev → driver w' = Some d) →
  frame w (emit ev w').
Proof.
  intros (E & L & R) Hev Huse. split_and!.
  - by apply extends_emit.
  - done.
  - intros d Hd. destruct (R d Hd) as [[Hne Hlt] X]. split; [done|].
    apply extends_emit; [|done]. intros Hu. by apply Hne, Huse.
Qed.

Lemma frame_set_last_hash w w' nm st h :
  frame w w' → STATE w' !! nm = Some st →
  frame w (set_site_state nm (set_last_hash h st) w').
Proof.
  intros (E & L & R) Hst. split_and!; [done| |done].
  intros k. simpl. by rewrite (insert_keeps_last_run _ nm st), L.
Qed.

Lemma frame_set_etag w w' nm st v :
  frame w w' → STATE w' !! nm = Some st →
  frame w (set_site_state nm (set_etag v st) w').
Proof.
  intros (E & L & R) Hst. split_and!; [done| |done].
  intros k. simpl. by rewrite (insert_keeps_last_run _ nm st), L.
Qed.

Lemma frame_failed w w' d e env :
  frame w w' → frame w (snd (selenium_failed d e env w')).
Proof.
  intros (E & L & R). rewrite selenium_failed_eq. simpl. split_and!.
  - destruct E as (evs & H & F). eexists (_ :: _ :: evs).
    split; [simpl; by rewrite H|]. events_ok. done.
  - done.
  - intros d' Hd'. destruct (R d' Hd') as [[Hne Hlt] (evs & H & F)].
    split; [by split|]. eexists (_ :: _ :: evs).
    split; [simpl; by rewrite H|]. events_ok. done.
Qed.

Lemma ensure_driver_frame env w : frame w (snd (ensure_driver env w)).
Proof.
  unfold ensure_driver. destruct (driver w) as [d0|] eqn:Hd0; [apply frame_refl|].
  destruct (make_driver env); simpl.
  - split_and!; [eexists [_]; split; [done|]; events_ok|done|].
    intros d [Hne Hlt]. split.
    + split; simpl; [|lia]. intros [= <-]. lia.
    + eexists [_]; split; [done|]; events_ok.
  - split_and!; [eexists [_; _]; split; [done|]; events_ok|done|].
    intros d [Hne Hlt]. split; [by split|].
    eexists [_; _]; split; [done|]; events_ok.
Qed.

Lemma selenium_frame hash repr site env w :
  frame w (snd (check_with_selenium hash repr site env w)).
Proof.
  unfold check_with_selenium.
  pose proof (ensure_driver_frame env w) as F0.
  pose proof (ensure_driver_result env w) as Hd.
  destruct (ensure_driver env w) as [[d|] w0]; simpl in *; [|done].
  assert (frame w (emit (EvDriverGet d (url site)) w0)) as F1.
  { apply frame_emit; [done|simpl; tauto|simpl; by intros ? ->]. }
  destruct (driver_get env); [|by apply frame_failed].
  assert (frame w (emit (EvSleep 1) (emit (EvDriverGet d (url site)) w0))) as F2.
  { apply frame_emit; [done|simpl; tauto|simpl; tauto]. }
  destruct (page_source env) as [html|]; [|by apply frame_failed].
  match goal with
  | |- context [emit (EvHash ?c) ?x] =>
      assert (frame w (emit (EvHash c) x)) as F3
        by (apply frame_emit; [done|simpl; tauto|simpl; tauto])
  end.
  simpl. destruct (STATE w0 !! name site) as [st|] eqn:Hst;
    [|by apply frame_failed].
  case_bool_decide; simpl; [done|]. by apply frame_set_last_hash.
Qed.

Lemma dispatch_frame hash repr site env w out w' :
  dispatch hash repr site env w = Ok (out, w') → frame w w'.
Proof.
  unfold dispatch. destruct (needs_js site); simpl.
  - intros [= Hc]. pose proof (selenium_frame hash repr site env w) as F.
    by rewrite Hc in F.
  - apply requests_frame.
Qed.

Lemma dispatch_total hash repr site env w :
  is_Some (STATE w !! name site) →
  ∃ out w', dispatch hash repr site env w = Ok (out, w').
Proof.
  intros [st Hst]. unfold dispatch. destruct (needs_js site); simpl.
  - destruct (check_with_selenium hash repr site env w) as [out w']. by exists out, w'.
  - destruct (requests_cases hash site env w st Hst)
      as [(e&_&Hc)|[(r&_&_&Hc)|[(r&_&_&_&Hc)|[(r&_&_&_&Hc)|(r&_&_&_&st'&Hc&_)]]]];
      rewrite Hc; by eexists _, _.
Qed.

(** ** Dispatch times *)

Lemma last_dispatch_app nm evs tr :
  Forall (λ ev, ¬ is_checking ev) evs →
  last_dispatch nm (evs ++ tr) = last_dispatch nm tr.
Proof.
  induction 1 as [|ev evs Hev _ IH]; [done|].
  destruct ev; simpl in *; done.
Qed.

Lemma spaced_app evs tr :
  Forall (λ ev, ¬ is_checking ev) evs → spaced tr → spaced (evs ++ tr).
Proof.
  induction 1 as [|ev evs Hev _ IH]; [done|].
  destruct ev; simpl in *; done.
Qed.

Lemma spaced_suffix pre tr : spaced (pre ++ tr) → spaced tr.
Proof.
  induction pre as [|ev pre IH]; [done|].
  destruct ev; simpl; try done. intros [_ H]. by apply IH.
Qed.

Lemma last_dispatch_skip nm mid s t post :
  (∀ s' t', EvChecking s' t' ∈ mid → name s' ≠ nm) →
  name s = nm →
  last_dispatch nm (mid ++ EvChecking s t :: post) = Some t.
Proof.
  intros Hmid Hs. induction mid as [|ev mid IH]; simpl.
  - by rewrite bool_decide_eq_true_2.
  - assert (last_dispatch nm (mid ++ EvChecking s t :: post) = Some t) as IH'.
    { apply IH. intros s' t' Hin. apply (Hmid s' t'). by right. }
    destruct ev; try done.
    rewrite bool_decide_eq_false_2; [done|]. eapply Hmid. by left.
Qed.

Lemma frame_bookkeeping w w' : frame w w' → bookkeeping w → bookkeeping w'.
Proof.
  intros ((evs & Htr & Hevs) & L & _) [B1 B2]. split.
  - intros k st' Hst'. rewrite Htr, last_dispatch_app by done.
    specialize (L k). rewrite Hst' in L. simpl in L.
    destruct (STATE w !! k) as [st|] eqn:Hst; [|done].
    injection L as ->. by apply B1.
  - rewrite Htr. by apply spaced_app.
Qed.

(** ** The scheduler keeps its books *)

Lemma due_spec site st now :
  due site st now = true
  ↔ (last_run st = None ∧ interval site ≤ 86400)
    ∨ (∃ t, last_run st = Some t ∧ interval site * 1000000 ≤ now - t).
Proof.
  unfold due, day_us. destruct (last_run st) as [t|]; rewrite Z.leb_le.
  - split; [intros H; right; by exists t|].
    intros [[? _]|(t' & [= <-] & H)]; done.
  - split; [intros H; left; split; [done|lia]|].
    intros [[_ H]|(t' & ? & _)]; [lia|done].
Qed.

Section Visit.
Variable hash : string -> Z.
Variable repr : string -> string.
Variables (site : Site) (env : Env) (w w' : World).
Hypothesis Hvisit : visit hash repr site env w = Ok w'.

(** Either nothing happened, or the site was due and was dispatched on a
    world that already holds the new [last_run]. *)
Lemma visit_inv :
  ∃ st, STATE w !! name site = Some st
        ∧ ((due site st (utcnow env) = false ∧ w' = w)
           ∨ (due site st (utcnow env) = true
              ∧ ∃ out w3,
                  dispatch hash repr site env
                    (emit (EvChecking site (utcnow env))
                       (set_site_state (name site)
                          (set_last_run (utcnow env) st) w)) = Ok (out, w3)
                  ∧ w' = emit (EvSleep 2)
                           (emit (EvReport (name site) (fst out) (snd out)) w3))).
Proof.
  unfold visit in Hvisit.
  destruct (STATE w !! name site) as [st|] eqn:Hst; [|done].
  exists st. split; [done|].
  destruct (due site st (utcnow env)); [right|left; split; congruence].
  split; [done|]. simpl in Hvisit.
  match type of Hvisit with
  | context [dispatch hash repr site env ?x] =>
      destruct (dispatch hash repr site env x) as [[out w3]|e] eqn:Hd
  end; [|done].
  exists out, w3. split; [done|]. simpl in Hvisit. congruence.
Qed.

Lemma visit_bookkeeping : bookkeeping w → bookkeeping w'.
Proof.
  intros [B1 B2].
  destruct visit_inv as (st & Hst & [[_ ->]|(Hdue & out & w3 & Hd & ->)]); [done|].
  apply (frame_bookkeeping
           (emit (EvChecking site (utcnow env))
              (set_site_state (name site) (set_last_run (utcnow env) st) w))).
  { do 2 (apply frame_emit; [|simpl; tauto|simpl; tauto]).
    by eapply dispatch_frame. }
  split; simpl.
  - intros k st' Hk. destruct (decide (name site = k)) as [<-|Hne].
    + rewrite lookup_insert_eq in Hk. injection Hk as <-.
      by rewrite bool_decide_eq_true_2.
    + rewrite lookup_insert_ne in Hk by done.
      rewrite bool_decide_eq_false_2 by done. by apply B1.
  - split; [|done]. intros t0 Ht0.
    apply due_spec in Hdue as [[Hnone _]|(t & Ht & Hle)].
    + rewrite (B1 _ _ Hst) in Hnone. congruence.
    + rewrite (B1 _ _ Hst) in Ht. congruence.
Qed.

Lemma visit_dom k : is_Some (STATE w !! k) → is_Some (STATE w' !! k).
Proof.
  intros Hk.
  destruct visit_inv as (st & Hst & [[_ ->]|(Hdue & out & w3 & Hd & ->)]); [done|].
  apply dispatch_frame in Hd as (_ & L & _). specialize (L k). simpl in *.
  destruct (decide (name site = k)) as [<-|Hne].
  - rewrite lookup_insert_eq in L. by destruct (STATE w3 !! name site).
  - rewrite lookup_insert_ne in L by done.
    destruct Hk as [x Hx]. rewrite Hx in L. by destruct (STATE w3 !! k).
Qed.

Lemma visit_retired d :
  retired d w → retired d w' ∧ extends (λ ev, ¬ uses_driver d ev) w w'.
Proof.
  intros Hr.
  destruct visit_inv as (st & Hst & [[_ ->]|(Hdue & out & w3 & Hd & ->)]).
  { split; [done|apply extends_refl]. }
  apply dispatch_frame in Hd as (_ & _ & R).
  destruct (R d) as [Hr3 X]; [done|]. split; [done|].
  do 2 (apply extends_emit; [simpl; tauto|]).
  destruct X as (evs & Htr & F). exists (evs ++ [EvChecking site (utcnow env)]).
  split; [simpl in *; by rewrite Htr, <- app_assoc|].
  apply Forall_app. split; [done|]. events_ok.
Qed.

End Visit.

Lemma visit_total hash repr site env w :
  is_Some (STATE w !! name site) → ∃ w', visit hash repr site env w = Ok w'.
Proof.
  intros [st Hst]. unfold visit. rewrite Hst.
  destruct (due site st (utcnow env)); [|by eexists].
  match goal with
  | |- context [dispatch hash repr site env ?x] =>
      destruct (dispatch_total hash repr site env x) as (out & w3 & ->)
  end.
  - simpl. by rewrite lookup_insert_eq.
  - simpl. by eexists.
Qed.

(** ** Rounds and the loop *)

Lemma sound_step_refl w : sound_step w w.
Proof. split_and!; try done. intros d Hd. split; [done|apply extends_refl]. Qed.

Lemma sound_step_trans w1 w2 w3 :
  sound_step w1 w2 → sound_step w2 w3 → sound_step w1 w3.
Proof.
  intros (D1 & B1 & R1) (D2 & B2 & R2).
  split_and!; [intros k Hk; by apply D2, D1|intros Hb; by apply B2, B1|].
  intros d Hd. destruct (R1 d Hd) as [Hd2 X1].
  destruct (R2 d Hd2) as [Hd3 X2]. split; [done|]. by eapply extends_trans.
Qed.

Lemma sound_step_visit hash repr site env w w' :
  visit hash repr site env w = Ok w' → sound_step w w'.
Proof.
  intros Hv. split_and!.
  - intros k. by eapply visit_dom.
  - by eapply visit_bookkeeping.
  - intros d. by eapply visit_retired.
Qed.

Lemma sound_step_sleep secs w : sound_step w (emit (EvSleep secs) w).
Proof.
  split_and!; [done| |].
  - apply frame_bookkeeping, frame_emit; [apply frame_refl|simpl; tauto..].
  - intros d Hd. split; [done|].
    apply extends_emit; [simpl; tauto|apply extends_refl].
Qed.

Lemma round_sound hash repr sites envs i w w' :
  round hash repr sites envs i w = Ok w' → sound_step w w'.
Proof.
  revert i w. induction sites as [|site rest IH]; intros i w; simpl.
  - intros [= <-]. apply sound_step_refl.
  - destruct (visit hash repr site (envs i) w) as [w1|e] eqn:Hv; [|done]. simpl.
    intros Hr. eapply sound_step_trans; [by eapply sound_step_visit|by eapply IH].
Qed.

Lemma round_total hash repr sites envs i w :
  (∀ s, s ∈ sites → is_Some (STATE w !! name s)) →
  ∃ w', round hash repr sites envs i w = Ok w'.
Proof.
  revert i w. induction sites as [|site rest IH]; intros i w Hdom; simpl.
  - by eexists.
  - destruct (visit_total hash repr site (envs i) w) as [w1 Hv]; [apply Hdom; by left|].
    rewrite Hv. simpl. apply IH. intros s Hs.
    apply (visit_dom hash repr site (envs i) w w1 Hv). apply Hdom. by right.
Qed.

Lemma loop_sound hash repr sites rounds oracle r w w' :
  loop hash repr sites rounds oracle r w = Ok w' → sound_step w w'.
Proof.
  revert r w. induction rounds as [|n IH]; intros r w; simpl.
  - intros [= <-]. apply sound_step_refl.
  - destruct (round hash repr sites (oracle r) 0%nat w) as [w1|e] eqn:Hr; [|done]. simpl.
    intros Hl. eapply sound_step_trans; [by eapply round_sound|].
    eapply sound_step_trans; [apply sound_step_sleep|by eapply IH].
Qed.

Lemma loop_total hash repr sites rounds oracle r w :
  (∀ s, s ∈ sites → is_Some (STATE w !! name s)) →
  ∃ w', loop hash repr sites rounds oracle r w = Ok w'.
Proof.
  revert r w. induction rounds as [|n IH]; intros r w Hdom; simpl.
  - by eexists.
  - destruct (round_total hash repr sites (oracle r) 0%nat w Hdom) as [w1 Hr].
    rewrite Hr. simpl. apply IH. intros s Hs. simpl.
    by apply (round_sound _ _ _ _ _ _ _ Hr), Hdom.
Qed.

(** The initial world. *)

Lemma init_STATE_lookup sites k :
  init_STATE sites !! k
  = if bool_decide (k ∈ name <$> sites) then Some fresh_state else None.
Proof.
  unfold init_STATE.
  assert (∀ m : gmap string SiteState,
            foldl (λ m s, <[name s := fresh_state]> m) m sites !! k
            = if bool_decide (k ∈ name <$> sites) then Some fresh_state
              else m !! k) as H.
  { induction sites as [|s rest IH]; intros m; cbn [foldl]; rewrite ?fmap_cons.
    - rewrite bool_decide_eq_false_2; [done|]. apply not_elem_of_nil.
    - rewrite IH. destruct (decide (k ∈ name <$> rest)) as [Hin|Hnin].
      + rewrite !bool_decide_eq_true_2; [done| |done]. by right.
      + rewrite (bool_decide_eq_false_2 _ Hnin).
        destruct (decide (name s = k)) as [<-|Hne].
        * rewrite lookup_insert_eq, bool_decide_eq_true_2; [done|]. by left.
        * rewrite lookup_insert_ne by done.
          rewrite bool_decide_eq_false_2; [done|].
          intros [?|?]%elem_of_cons; congruence. }
  rewrite H. by rewrite lookup_empty.
Qed.

Lemma stagger_sound sites s w : sound_step w (stagger sites s w).
Proof.
  revert s w. induction sites as [|site rest IH]; intros s w; simpl.
  - apply sound_step_refl.
  - eapply sound_step_trans; [apply sound_step_sleep|apply IH].
Qed.

Lemma init_bookkeeping sites : bookkeeping (init_world sites).
Proof.
  split; [|done]. intros k st. simpl. rewrite init_STATE_lookup.
  case_bool_decide; [|done]. by intros [= <-].
Qed.

Lemma monitor_loop_total hash repr sites rounds oracle :
  ∃ w, monitor_loop hash repr sites rounds oracle = Ok w ∧ bookkeeping w.
Proof.
  unfold monitor_loop.
  destruct (loop_total hash repr sites rounds oracle 0%nat
              (stagger sites 0 (init_world sites))) as [w Hw].
  { intros s Hs. apply (stagger_sound sites 0 (init_world sites)). simpl.
    rewrite init_STATE_lookup, bool_decide_eq_true_2; [done|].
    by apply list_elem_of_fmap_2. }
  exists w. split; [done|].
  apply (loop_sound _ _ _ _ _ _ _ _ Hw).
  apply (stagger_sound sites 0 (init_world sites)), init_bookkeeping.
Qed.

(** ** The claims about the scheduler and the rendering instance *)

(** C4: a due visit stores [now] as [last_run] before it dispatches, and
    the check, whatever its outcome, leaves that value in place; hence in
    every run of the loop, under any clock and any behaviour of the
    checks, two consecutive dispatches of the same resource are at least
    the dispatched site's interval apart. *)
Theorem interval_floor (hash : string -> Z) (repr : string -> string) sites rounds oracle :
  (∀ site env w st,
      STATE w !! name site = Some st → due site st (utcnow env) = true →
      ∃ out w3,
        dispatch hash repr site env
          (emit (EvChecking site (utcnow env))
             (set_site_state (name site) (set_last_run (utcnow env) st) w))
        = Ok (out, w3)
        ∧ visit hash repr site env w
          = Ok (emit (EvSleep 2) (emit (EvReport (name site) (fst out) (snd out)) w3))
        ∧ ∃ st', STATE w3 !! name site = Some st'
                 ∧ last_run st' = Some (utcnow env))
  ∧ ∃ w, monitor_loop hash repr sites rounds oracle = Ok w
         ∧ ∀ pre mid post s1 t1 s2 t2,
             trace w = pre ++ EvChecking s2 t2 :: mid ++ EvChecking s1 t1 :: post →
             name s1 = name s2 →
             (∀ s t, EvChecking s t ∈ mid → name s ≠ name s2) →
             interval s2 * 1000000 ≤ t2 - t1.
Proof.
  split.
  - intros site env w st Hst Hdue.
    destruct (visit_total hash repr site env w) as [w' Hv]; [by rewrite Hst|].
    destruct (visit_inv hash repr site env w w' Hv)
      as (st0 & Hst0 & [[Hnd _]|(_ & out & w3 & Hd & ->)]).
    { rewrite Hst in Hst0. injection Hst0 as <-. congruence. }
    rewrite Hst in Hst0. injection Hst0 as <-.
    exists out, w3. split_and!; [done..|].
    apply dispatch_frame in Hd as (_ & L & _). specialize (L (name site)).
    simpl in L. rewrite lookup_insert_eq in L.
    destruct (STATE w3 !! name site) as [st'|]; [|done].
    exists st'. split; [done|]. simpl in L. congruence.
  - destruct (monitor_loop_total hash repr sites rounds oracle) as (w & Hw & [_ Hsp]).
    exists w. split; [done|].
    intros pre mid post s1 t1 s2 t2 Htr Hname Hmid.
    rewrite Htr in Hsp. apply spaced_suffix in Hsp. simpl in Hsp.
    destruct Hsp as [Hsp _]. apply Hsp. by apply last_dispatch_skip.
Qed.

(** C1 (where the code departs from it): a site with a weekly interval
    that has never been checked is not due, at any time, and no run of the
    loop ever dispatches it. *)
Theorem weekly_site_is_never_checked (hash : string -> Z) (repr : string -> string) rounds oracle :
  (∀ now, due Archive fresh_state now = false)
  ∧ ∃ w, monitor_loop hash repr [Archive] rounds oracle = Ok w
         ∧ STATE w !! "Archive" = Some fresh_state
         ∧ Forall (λ ev, ¬ is_checking ev) (trace w).
Proof.
  assert (∀ now, due Archive fresh_state now = false) as Hnot.
  { intros now. unfold due, day_us. simpl. apply Z.leb_gt. lia. }
  split; [done|]. unfold monitor_loop.
  assert (∀ n r w,
            STATE w !! "Archive" = Some fresh_state →
            Forall (λ ev, ¬ is_checking ev) (trace w) →
            ∃ w', loop hash repr [Archive] n oracle r w = Ok w'
                  ∧ STATE w' !! "Archive" = Some fresh_state
                  ∧ Forall (λ ev, ¬ is_checking ev) (trace w')) as Hloop.
  { induction n as [|n IH]; intros r w Hst Htr; simpl.
    - by exists w.
    - rewrite (visit_not_due hash repr Archive (oracle r 0%nat) w fresh_state) by done.
      simpl. apply IH; [done|]. simpl. constructor; [simpl; tauto|done]. }
  apply Hloop; simpl.
  - reflexivity.
  - events_ok.
Qed.

(** A run in which [StaticSite] is dispatched twice: the two dispatches
    are a full interval apart. *)
Lemma interval_floor_witness :
  ∃ w, monitor_loop sample_hash sample_repr SITES 2
         (λ r _, calm (1000000000 + Z.of_nat r * 300000000) "X" None) = Ok w
       ∧ (∃ pre mid post,
             trace w = pre ++ EvChecking StaticSite 1300000000
                           :: mid ++ EvChecking StaticSite 1000000000 :: post)
       ∧ interval StaticSite * 1000000 ≤ 1300000000 - 1000000000.
Proof.
  destruct (interval_floor sample_hash sample_repr SITES 2
              (λ r _, calm (1000000000 + Z.of_nat r * 300000000) "X" None))
    as (_ & w & Hw & Hfloor).
  exists w. split; [exact Hw|].
  assert (∃ pre mid post,
             trace w = pre ++ EvChecking StaticSite 1300000000
                           :: mid ++ EvChecking StaticSite 1000000000 :: post
             ∧ ∀ s t, EvChecking s t ∈ mid → name s ≠ name StaticSite)
    as (pre & mid & post & Htr & Hmid).
  { vm_compute in Hw. injection Hw as <-.
    eexists [_; _; _; _; _], [_; _; _; _; _; _; _; _; _; _; _; _], _.
    split; [reflexivity|].
    intros s t Hin. in_events Hin. }
  split; [by exists pre, mid, post|].
  by apply (Hfloor pre mid post StaticSite 1000000000 StaticSite 1300000000).
Defined.

(** C5: an error raised while rendering makes the check return an error
    after calling [quit] on the driver (whatever [quit] does) and leaves
    the driver absent; the next rendered check, for whichever site, starts
    by calling [make_driver], and neither it nor any later round of the
    loop uses the old instance again. *)
Theorem render_error_forces_rebuild (hash : string -> Z) (repr : string -> string) site env w d e :
  driver_wf w →
  fst (ensure_driver env w) = Some d →
  driver_get env = Raise e ∨ (driver_get env = Ok tt ∧ page_source env = Raise e) →
  ∃ w1, check_with_selenium hash repr site env w = ((false, "error: " +:+ e), w1)
        ∧ outcome_of (false, "error: " +:+ e) = Error
        ∧ (∃ tr, trace w1 = EvQuit d :: tr)
        ∧ driver w1 = None
        ∧ (∀ site' env',
             ∃ evs, trace (snd (check_with_selenium hash repr site' env' w1))
                    = evs ++ EvMakeDriver :: trace w1
                    ∧ Forall (λ ev, ¬ uses_driver d ev) evs
                    ∧ driver (snd (check_with_selenium hash repr site' env' w1)) ≠ Some d)
        ∧ (∀ sites rounds oracle r w2,
             loop hash repr sites rounds oracle r w1 = Ok w2 →
             driver w2 ≠ Some d ∧ extends (λ ev, ¬ uses_driver d ev) w1 w2).
Proof.
  intros Hwf Hd Herr.
  assert (d < spawned (snd (ensure_driver env w)))%nat as Hlt.
  { revert Hd. unfold ensure_driver. destruct (driver w) as [d0|] eqn:Hd0; simpl.
    - intros [= <-]. by apply Hwf.
    - destruct (make_driver env); simpl; [|done]. intros [= <-]. lia. }
  assert (∃ w1, check_with_selenium hash repr site env w = ((false, "error: " +:+ e), w1)
                ∧ (∃ tr, trace w1 = EvQuit d :: tr)
                ∧ driver w1 = None
                ∧ spawned w1 = spawned (snd (ensure_driver env w)))
    as (w1 & Hc & Hq & Hnone & Hsp).
  { destruct Herr as [Hg|[Hg Hp]].
    - rewrite (selenium_get_raises hash repr site env w d e) by done.
      rewrite selenium_failed_eq. eexists. split; [done|]. simpl. eauto.
    - rewrite (selenium_source_raises hash repr site env w d tt e) by done.
      rewrite selenium_failed_eq. eexists. split; [done|]. simpl. eauto. }
  assert (retired d w1) as Hret by (split; [by rewrite Hnone|by rewrite Hsp]).
  exists w1. split_and!; [done|apply outcome_error|done|done| |].
  - intros site' env'.
    destruct (selenium_trace_rebuild hash repr site' env' w1 Hnone) as (evs & Htr & Hu & Hdr).
    exists evs. split_and!; [done| |].
    + apply Forall_forall. intros ev Hin Huse.
      destruct ev; simpl in Huse; try done. subst.
      specialize (Hu _ _ Hin). destruct Hret as [_ ?]. lia.
    + intros Hsome. specialize (Hdr _ Hsome). destruct Hret as [_ ?]. lia.
  - intros sites rounds oracle r w2 Hl.
    apply loop_sound in Hl as (_ & _ & R).
    destruct (R d Hret) as [[Hne _] X]. by split.
Qed.

Lemma render_error_forces_rebuild_witness :
  ∃ w1, check_with_selenium sample_hash sample_repr JSApp (crash 0) (init_world SITES)
        = ((false, "error: " +:+ "page crash"), w1)
        ∧ outcome_of (false, "error: " +:+ "page crash") = Error
        ∧ (∃ tr, trace w1 = EvQuit 0 :: tr)
        ∧ driver w1 = None
        ∧ (∀ site' env',
             ∃ evs, trace (snd (check_with_selenium sample_hash sample_repr site' env' w1))
                    = evs ++ EvMakeDriver :: trace w1
                    ∧ Forall (λ ev, ¬ uses_driver 0 ev) evs
                    ∧ driver (snd (check_with_selenium sample_hash sample_repr site' env' w1)) ≠ Some 0%nat)
        ∧ (∀ sites rounds oracle r w2,
             loop sample_hash sample_repr sites rounds oracle r w1 = Ok w2 →
             driver w2 ≠ Some 0%nat ∧ extends (λ ev, ¬ uses_driver 0 ev) w1 w2).
Proof.
  apply (render_error_forces_rebuild sample_hash sample_repr JSApp (crash 0) (init_world SITES)
           0%nat "page crash").
  - intros d Hd. discriminate Hd.
  - reflexivity.
  - left. reflexivity.
Defined.

(** * Further properties of the code *)

(** ** Slicing and the digest *)

Lemma prefix_app n (p s : string) :
  (n ≤ String.length p)%nat → prefix n (p +:+ s) = prefix n p.
Proof.
  unfold prefix. revert p. induction n as [|n IH]; intros p Hn.
  - by destruct p, s.
  - destruct p as [|c p]; simpl in *; [lia|]. f_equal. apply IH. lia.
Qed.

Lemma obtains_page_content site env w page :
  obtains_page site env w page →
  obtains_content site env w (prefix (examined site) page).
Proof.
  intros [r Hjs Hr Hs|d u html Hjs Hd Hg Hp]; unfold examined; rewrite Hjs.
  - by apply obtained_by_requests.
  - by eapply obtained_by_selenium.
Qed.

(** After a check that obtained content, the stored fingerprint is that
    content's digest, whether the check said "changed" or "no change". *)
Lemma dispatch_stores_digest hash repr site env w st content out w' :
  STATE w !! name site = Some st →
  obtains_content site env w content →
  dispatch hash repr site env w = Ok (out, w') →
  (out = (true, "changed") ∨ out = (false, "no change"))
  ∧ ∃ st', STATE w' !! name site = Some st'
           ∧ last_hash st' = Some (simple_hash hash content).
Proof.
  intros Hst Hc. unfold dispatch.
  destruct Hc as [r Hjs Hr Hs|d u html Hjs Hd Hg Hp]; rewrite Hjs; simpl.
  - destruct (decide (last_hash st = Some (simple_hash hash (prefix 5000 (text r)))))
      as [Hh|Hh].
    + rewrite (requests_same_hash hash site env w st Hst r) by done.
      intros [= <- <-]. split; [by right|]. by exists st.
    + rewrite (requests_new_hash hash site env w st Hst r) by done.
      intros [= <- <-]. split; [by left|]. eexists. simpl.
      rewrite lookup_insert_eq. split; [done|].
      by destruct (headers r !! "ETag").
  - rewrite (selenium_rendered hash repr site env w d u html st) by done. cbv zeta.
    case_bool_decide as Hh; intros [= <- <-].
    + split; [by right|]. exists st. simpl. by rewrite ensure_driver_STATE.
    + split; [by left|]. eexists. simpl. by rewrite lookup_insert_eq.
Qed.

(** A check that obtains content whose digest is the stored one says "no
    change" and writes nothing to [STATE]. *)
Lemma dispatch_same_digest hash repr site env w st content :
  STATE w !! name site = Some st →
  last_hash st = Some (simple_hash hash content) →
  obtains_content site env w content →
  ∃ w', dispatch hash repr site env w = Ok ((false, "no change"), w')
        ∧ STATE w' = STATE w.
Proof.
  intros Hst Hh Hc. unfold dispatch.
  destruct Hc as [r Hjs Hr Hs|d u html Hjs Hd Hg Hp]; rewrite Hjs; simpl.
  - rewrite (requests_same_hash hash site env w st Hst r) by done.
    by eexists.
  - rewrite (selenium_rendered hash repr site env w d u html st) by done. cbv zeta.
    rewrite bool_decide_eq_true_2 by done. eexists. split; [done|].
    simpl. apply ensure_driver_STATE.
Qed.



(** X2: a change beyond the examined prefix is not seen: if two pages
    agree on a part [p] at least as long as the examined prefix (5000
    characters for the conditional fetch, 10000 for the rendered one), the
    check of the second page right after the first says "no change". *)
Theorem change_beyond_prefix_is_missed
    (hash : string -> Z) (repr : string -> string) site env env2 w st p s1 s2 out w' :
  STATE w !! name site = Some st →
  (examined site ≤ String.length p)%nat →
  obtains_page site env w (p +:+ s1) →
  dispatch hash repr site env w = Ok (out, w') →
  obtains_page site env2 w' (p +:+ s2) →
  ∃ w'', dispatch hash repr site env2 w' = Ok ((false, "no change"), w'')
         ∧ STATE w'' = STATE w'.
Proof.
  intros Hst Hlen Hp1 Hd Hp2.
  apply obtains_page_content in Hp1, Hp2.
  rewrite prefix_app in Hp1, Hp2 by done.
  destruct (dispatch_stores_digest hash repr site env w st _ out w' Hst Hp1 Hd)
    as (_ & st' & Hst' & Hh).
  by eapply dispatch_same_digest.
Qed.

Lemma change_beyond_prefix_is_missed_witness :
  ∃ w'', dispatch length_hash sample_repr StaticSite
           (calm 400000000 (nchars 5000 filler +:+ "new") None)
           (after (dispatch length_hash sample_repr StaticSite
                     (calm 0 (nchars 5000 filler +:+ "old") None) (init_world SITES))
                  (init_world SITES))
         = Ok ((false, "no change"), w'')
         ∧ STATE w''
           = STATE (after (dispatch length_hash sample_repr StaticSite
                             (calm 0 (nchars 5000 filler +:+ "old") None)
                             (init_world SITES))
                          (init_world SITES)).
Proof.
  apply (change_beyond_prefix_is_missed length_hash sample_repr StaticSite
           (calm 0 (nchars 5000 filler +:+ "old") None)
           (calm 400000000 (nchars 5000 filler +:+ "new") None)
           (init_world SITES) fresh_state (nchars 5000 filler) "old" "new"
           (true, "changed")).
  - reflexivity.
  - apply Nat.leb_le. vm_compute. reflexivity.
  - apply (page_by_requests StaticSite _ _
             (reply 200 (nchars 5000 filler +:+ "old") None)); reflexivity.
  - vm_compute. reflexivity.
  - apply (page_by_requests StaticSite _ _
             (reply 200 (nchars 5000 filler +:+ "new") None)); reflexivity.
Defined.

(** X3: the digest keeps the low 32 bits of [hash] and nothing else: two
    contents get the same fingerprint exactly when their hashes differ by
    a multiple of 2^32, so such a change goes unnoticed. *)
Theorem simple_hash_collides_iff (hash : string -> Z) (a b : string) :
  simple_hash hash a = simple_hash hash b
  ↔ (hash a - hash b) mod 2 ^ 32 = 0.
Proof.
  unfold simple_hash. change 0xffffffff with (Z.ones 32).
  rewrite !Z.land_ones by lia.
  split; intros H.
  - rewrite Zminus_mod, H, Z.sub_diag. reflexivity.
  - apply Z.mod_divide in H; [|lia]. destruct H as [k Hk].
    replace (hash a) with (hash b + k * 2 ^ 32) by lia.
    apply Z_mod_plus_full.
Qed.

(** ** What each check can and cannot touch *)

Ltac added_events :=
  unfold extends; simpl; new_events; events_ok.

(** The conditional fetch, seen from outside: the world it returns is the
    old one with a request (and perhaps a digest computation) on the
    trace and, on "changed" only, a new entry under the site's name. *)
Lemma requests_footprint hash site env w out w' :
  check_with_requests hash site env w = Ok (out, w') →
  driver w' = driver w
  ∧ spawned w' = spawned w
  ∧ extends (λ ev, ¬ driver_event ev ∧ ¬ scheduler_event ev) w w'
  ∧ (∀ k, k ≠ name site → STATE w' !! k = STATE w !! k)
  ∧ (STATE w' = STATE w
     ∨ ∃ st r, STATE w !! name site = Some st
               ∧ requests_get env = Ok r
               ∧ out = (true, "changed")
               ∧ STATE w' = <[name site :=
                               mkState (last_run st)
                                 (match headers r !! "ETag" with
                                  | Some v => Some v
                                  | None => etag st
                                  end)
                                 (Some (simple_hash hash (prefix 5000 (text r))))]>
                              (STATE w)).
Proof.
  intros Hc. destruct (STATE w !! name site) as [st|] eqn:Hst.
  2: { unfold check_with_requests in Hc. by rewrite Hst in Hc. }
  destruct (requests_cases hash site env w st Hst)
    as [(e&_&Hc')|[(r&_&_&Hc')|[(r&_&_&_&Hc')|[(r&_&_&_&Hc')|(r&Hr&Hs&Hh&_)]]]].
  5: { rewrite (requests_new_hash hash site env w st Hst r Hr Hs Hh) in Hc.
       injection Hc as <- <-. simpl. split_and!; [done|done|added_events| |].
       - intros k Hk. by rewrite lookup_insert_ne.
       - right. exists st, r. split_and!; try done.
         f_equal. by destruct (headers r !! "ETag"). }
  all: rewrite Hc' in Hc; injection Hc as <- <-; simpl.
  all: split_and!; [done|done|added_events|done|by left].
Qed.

(** The rendered fetch, seen from outside. *)
Lemma selenium_footprint hash repr site env w :
  let w' := snd (check_with_selenium hash repr site env w) in
  extends (λ ev, ¬ http_event ev ∧ ¬ scheduler_event ev) w w'
  ∧ (∀ k, k ≠ name site → STATE w' !! k = STATE w !! k)
  ∧ (STATE w' = STATE w
     ∨ ∃ st html, STATE w !! name site = Some st
                  ∧ page_source env = Ok html
                  ∧ fst (check_with_selenium hash repr site env w) = (true, "changed")
                  ∧ STATE w' = <[name site :=
                                  mkState (last_run st) (etag st)
                                    (Some (simple_hash hash (prefix 10000 html)))]>
                                 (STATE w)).
Proof.
  cbv zeta. unfold check_with_selenium, ensure_driver, selenium_failed.
  destruct (driver w) as [d0|], (make_driver env), (driver_get env),
    (page_source env) as [html|], (driver_quit env); simpl;
    try (destruct (STATE w !! name site) as [st|] eqn:Hst; simpl;
         try case_bool_decide; simpl).
  all: split_and!; [added_events|try done; intros k Hk; by rewrite lookup_insert_ne|].
  all: first [by left|right; by exists st, html].
Qed.

Lemma extends_weaken (P Q : Event -> Prop) w w' :
  (∀ ev, P ev → Q ev) → extends P w w' → extends Q w w'.
Proof.
  intros HPQ (evs & Htr & F). exists evs. split; [done|].
  eapply Forall_impl; eauto.
Qed.

(** X4: a conditional fetch, however it ends (transport failures and bad
    statuses included), leaves the browser alone: the driver and the count
    of drivers built are as before, and no [make_driver], [d.get] or
    [d.quit] call was made. *)
Theorem conditional_fetch_leaves_driver_alone (hash : string -> Z) site env w out w' :
  check_with_requests hash site env w = Ok (out, w') →
  driver w' = driver w
  ∧ spawned w' = spawned w
  ∧ extends (λ ev, ¬ driver_event ev) w w'.
Proof.
  intros Hc.
  destruct (requests_footprint hash site env w out w' Hc) as (Hd & Hs & X & _).
  split_and!; [done|done|]. eapply extends_weaken; [|exact X]. by intros ev [? _].
Qed.

Lemma conditional_fetch_leaves_driver_alone_witness :
  driver (after (check_with_requests sample_hash StaticSite (outage 0)
                   (snd (check_with_selenium sample_hash sample_repr JSApp (calm 0 "page" None)
                           (init_world SITES))))
                (init_world SITES))
  = driver (snd (check_with_selenium sample_hash sample_repr JSApp (calm 0 "page" None)
                   (init_world SITES)))
  ∧ spawned (after (check_with_requests sample_hash StaticSite (outage 0)
                      (snd (check_with_selenium sample_hash sample_repr JSApp (calm 0 "page" None)
                              (init_world SITES))))
                   (init_world SITES))
    = spawned (snd (check_with_selenium sample_hash sample_repr JSApp (calm 0 "page" None)
                      (init_world SITES)))
  ∧ extends (λ ev, ¬ driver_event ev)
      (snd (check_with_selenium sample_hash sample_repr JSApp (calm 0 "page" None)
              (init_world SITES)))
      (after (check_with_requests sample_hash StaticSite (outage 0)
                (snd (check_with_selenium sample_hash sample_repr JSApp (calm 0 "page" None)
                        (init_world SITES))))
             (init_world SITES)).
Proof.
  apply (conditional_fetch_leaves_driver_alone sample_hash StaticSite (outage 0)
           _ (false, "error: timed out")).
  vm_compute. reflexivity.
Defined.

(** X5: a rendered check never sends an HTTP request and never changes a
    stored validator, of any resource. *)
Theorem rendered_check_leaves_validators_alone (hash : string -> Z) (repr : string -> string) site env w :
  extends (λ ev, ¬ http_event ev) w (snd (check_with_selenium hash repr site env w))
  ∧ ∀ k, etag <$> (STATE (snd (check_with_selenium hash repr site env w)) !! k)
         = etag <$> (STATE w !! k).
Proof.
  destruct (selenium_footprint hash repr site env w) as (X & Hother & Hsite).
  split; [eapply extends_weaken; [|exact X]; by intros ev [? _]|].
  intros k. destruct Hsite as [->|(st & html & Hst & _ & _ & ->)]; [done|].
  destruct (decide (name site = k)) as [<-|Hne].
  - by rewrite lookup_insert_eq, Hst.
  - by rewrite lookup_insert_ne.
Qed.

(** X6: only a change writes to [STATE].  A dispatched check that returns
    [False] (no change, not modified, or any error) leaves the whole table
    as it was; one that returns [True] gives the reason "changed" and
    alters the entry of its own site only, keeping its [last_run]; and in
    either case no other resource's entry is touched. *)
Theorem only_a_change_writes_state (hash : string -> Z) (repr : string -> string) site env w out w' :
  dispatch hash repr site env w = Ok (out, w') →
  (fst out = false → STATE w' = STATE w)
  ∧ (fst out = true →
     snd out = "changed"
     ∧ ∃ st st', STATE w !! name site = Some st
                 ∧ STATE w' = <[name site := st']> (STATE w)
                 ∧ last_run st' = last_run st
                 ∧ is_Some (last_hash st'))
  ∧ (∀ k, k ≠ name site → STATE w' !! k = STATE w !! k).
Proof.
  unfold dispatch. destruct (needs_js site); simpl.
  - intros [= Hc].
    destruct (selenium_footprint hash repr site env w) as (_ & Hother & Hsite).
    rewrite Hc in Hother, Hsite. simpl in *. split_and!; [| |done].
    + by destruct Hsite as [?|(st & html & _ & _ & -> & _)].
    + intros Htrue. destruct Hsite as [Heq|(st & html & Hst & _ & -> & ->)].
      * pose proof (selenium_frame hash repr site env w) as _.
        exfalso. revert Hc Htrue Heq. clear.
        unfold check_with_selenium, ensure_driver, selenium_failed.
        destruct (driver w), (make_driver env), (driver_get env),
          (page_source env), (driver_quit env); simpl;
          try (destruct (STATE w !! name site) eqn:Hst; simpl;
               try case_bool_decide; simpl);
          intros [= <- <-]; simpl; try discriminate.
        all: intros _ Heq; apply (f_equal (λ m, last_hash <$> m !! name site)) in Heq;
          rewrite lookup_insert_eq, Hst in Heq; simpl in Heq; congruence.
      * split; [done|]. eexists st, _. split_and!; by eauto.
  - intros Hc.
    destruct (requests_footprint hash site env w out w' Hc)
      as (_ & _ & _ & Hother & Hsite).
    split_and!; [| |done].
    + by destruct Hsite as [?|(st & r & _ & _ & -> & _)].
    + intros Htrue. destruct Hsite as [Heq|(st & r & Hst & _ & -> & ->)].
      * exfalso. destruct (STATE w !! name site) as [st|] eqn:Hst.
        2: { unfold check_with_requests in Hc. by rewrite Hst in Hc. }
        destruct (requests_cases hash site env w st Hst)
          as [(e&_&Hc')|[(r&_&_&Hc')|[(r&_&_&_&Hc')|[(r&_&_&_&Hc')|(r&_&_&Hh&st'&Hc'&Hh'&_)]]]];
          rewrite Hc' in Hc; injection Hc as <- <-; try discriminate.
        simpl in Heq. apply (f_equal (λ m, last_hash <$> m !! name site)) in Heq.
        rewrite lookup_insert_eq, Hst in Heq. simpl in Heq. congruence.
      * split; [done|]. eexists st, _. split_and!; by eauto.
Qed.

Lemma only_a_change_writes_state_witness :
  (fst (true, "changed") = false →
   STATE (after (dispatch sample_hash sample_repr StaticSite (calm 0 "X" (Some "v1"))
                   (init_world SITES)) (init_world SITES))
   = STATE (init_world SITES))
  ∧ (fst (true, "changed") = true →
     snd (true, "changed") = "changed"
     ∧ ∃ st st', STATE (init_world SITES) !! name StaticSite = Some st
                 ∧ STATE (after (dispatch sample_hash sample_repr StaticSite
                                   (calm 0 "X" (Some "v1")) (init_world SITES))
                                (init_world SITES))
                   = <[name StaticSite := st']> (STATE (init_world SITES))
                 ∧ last_run st' = last_run st
                 ∧ is_Some (last_hash st'))
  ∧ (∀ k, k ≠ name StaticSite →
          STATE (after (dispatch sample_hash sample_repr StaticSite (calm 0 "X" (Some "v1"))
                          (init_world SITES)) (init_world SITES)) !! k
          = STATE (init_world SITES) !! k).
Proof.
  apply (only_a_change_writes_state sample_hash sample_repr StaticSite (calm 0 "X" (Some "v1"))
           (init_world SITES) (true, "changed")).
  vm_compute. reflexivity.
Defined.

(** ** Invariants of the loop *)

(** A property of worlds that every visit of a configured site and every
    sleep keeps holds after any number of rounds. *)
Lemma loop_invariant hash repr (P : World -> Prop) sites :
  (∀ site env w w', site ∈ sites → P w → visit hash repr site env w = Ok w' → P w') →
  (∀ secs w, P w → P (emit (EvSleep secs) w)) →
  ∀ rounds oracle r w w',
    P w → loop hash repr sites rounds oracle r w = Ok w' → P w'.
Proof.
  intros Hvisit Hsleep.
  assert (∀ l envs i w w', l ⊆ sites → P w →
            round hash repr l envs i w = Ok w' → P w') as Hround.
  { induction l as [|site rest IH]; intros envs i w w' Hsub HP; simpl.
    - by intros [= <-].
    - destruct (visit hash repr site (envs i) w) as [w1|e] eqn:Hv; [|done]. simpl.
      apply IH; [set_solver|]. eapply Hvisit; [|done..]. set_solver. }
  induction rounds as [|n IH]; intros oracle r w w' HP; simpl.
  - by intros [= <-].
  - destruct (round hash repr sites (oracle r) 0%nat w) as [w1|e] eqn:Hr; [|done]. simpl.
    apply IH, Hsleep. by eapply Hround.
Qed.

Lemma monitor_loop_invariant hash repr (P : World -> Prop) sites rounds oracle w :
  (∀ site env w w', site ∈ sites → P w → visit hash repr site env w = Ok w' → P w') →
  (∀ secs w, P w → P (emit (EvSleep secs) w)) →
  P (init_world sites) →
  monitor_loop hash repr sites rounds oracle = Ok w → P w.
Proof.
  intros Hvisit Hsleep Hinit. unfold monitor_loop.
  apply (loop_invariant hash repr P sites Hvisit Hsleep).
  assert (∀ l z w0, P w0 → P (stagger l z w0)) as Hstagger.
  { induction l as [|s rest IH]; intros z w0 H0; simpl; [done|].
    apply IH. by apply Hsleep. }
  by apply Hstagger.
Qed.

Lemma dispatch_events hash repr site env w out w' :
  dispatch hash repr site env w = Ok (out, w') →
  extends (λ ev, ¬ scheduler_event ev) w w'.
Proof.
  unfold dispatch. destruct (needs_js site); simpl.
  - intros [= Hc]. destruct (selenium_footprint hash repr site env w) as (X & _).
    rewrite Hc in X. eapply extends_weaken; [|exact X]. by intros ev [_ ?].
  - intros Hc. destruct (requests_footprint hash site env w out w' Hc)
      as (_ & _ & X & _).
    eapply extends_weaken; [|exact X]. by intros ev [_ ?].
Qed.

Lemma dispatches_reports_app evs tr :
  Forall (λ ev, ¬ scheduler_event ev) evs →
  dispatches (evs ++ tr) = dispatches tr ∧ reports (evs ++ tr) = reports tr.
Proof.
  induction 1 as [|ev evs Hev _ IH]; [done|].
  destruct ev; simpl in *; done.
Qed.

(** X7: every dispatch is reported exactly once: in the trace of any run
    of the loop there are as many report lines as "Checking" lines. *)
Theorem every_dispatch_is_reported (hash : string -> Z) (repr : string -> string) sites rounds oracle :
  ∃ w, monitor_loop hash repr sites rounds oracle = Ok w
       ∧ reports (trace w) = dispatches (trace w).
Proof.
  destruct (monitor_loop_total hash repr sites rounds oracle) as (w & Hw & _).
  exists w. split; [done|].
  apply (monitor_loop_invariant hash repr
           (λ w, reports (trace w) = dispatches (trace w)) sites rounds oracle w);
    try done.
  intros site env w0 w' _ HP Hv.
  destruct (visit_inv hash repr site env w0 w' Hv)
    as (st & Hst & [[_ ->]|(_ & out & w3 & Hd & ->)]); [done|].
  apply dispatch_events in Hd as (evs & Htr & F). simpl in *.
  rewrite Htr. destruct (dispatches_reports_app evs
    (EvChecking site (utcnow env) :: trace w0) F) as [-> ->].
  simpl. by rewrite HP.
Qed.

(** X8: every fingerprint the loop ever stores is a 32-bit value. *)
Theorem stored_fingerprints_are_32bit (hash : string -> Z) (repr : string -> string) sites rounds oracle :
  ∃ w, monitor_loop hash repr sites rounds oracle = Ok w
       ∧ ∀ k st h, STATE w !! k = Some st → last_hash st = Some h →
                   0 ≤ h < 2 ^ 32.
Proof.
  destruct (monitor_loop_total hash repr sites rounds oracle) as (w & Hw & _).
  exists w. split; [done|].
  apply (monitor_loop_invariant hash repr
           (λ w, ∀ k st h, STATE w !! k = Some st → last_hash st = Some h →
                           0 ≤ h < 2 ^ 32) sites rounds oracle w);
    try done.
  - intros site env w0 w' _ HP Hv.
    destruct (visit_inv hash repr site env w0 w' Hv)
      as (st & Hst & [[_ ->]|(_ & out & w3 & Hd & ->)]); [done|].
    assert (∀ k st' h,
              <[name site := set_last_run (utcnow env) st]> (STATE w0) !! k = Some st' →
              last_hash st' = Some h → 0 ≤ h < 2 ^ 32) as HP2.
    { intros k st' h Hk Hh. destruct (decide (name site = k)) as [<-|Hne].
      - rewrite lookup_insert_eq in Hk. injection Hk as <-. by eapply HP.
      - rewrite lookup_insert_ne in Hk by done. by eapply HP. }
    simpl. intros k st' h Hk Hh. unfold dispatch in Hd.
    destruct (needs_js site); simpl in Hd.
    + injection Hd as Hd.
      match type of Hd with
      | check_with_selenium hash repr site env ?x = _ =>
          destruct (selenium_footprint hash repr site env x) as (_ & _ & Hsite)
      end.
      rewrite Hd in Hsite. simpl in Hsite.
      destruct Hsite as [Heq|(st0 & html & Hst0 & _ & _ & Heq)];
        rewrite Heq in Hk; simpl in Hk.
      * exact (HP2 _ _ _ Hk Hh).
      * destruct (decide (name site = k)) as [<-|Hne].
        -- rewrite lookup_insert_eq in Hk. injection Hk as <-. simpl in Hh.
           injection Hh as <-. apply simple_hash_range.
        -- rewrite lookup_insert_ne in Hk by done. exact (HP2 _ _ _ Hk Hh).
    + destruct (requests_footprint hash site env _ out w3 Hd)
        as (_ & _ & _ & _ & Hsite). simpl in Hsite.
      destruct Hsite as [Heq|(st0 & r & Hst0 & _ & _ & Heq)];
        rewrite Heq in Hk; simpl in Hk.
      * exact (HP2 _ _ _ Hk Hh).
      * destruct (decide (name site = k)) as [<-|Hne].
        -- rewrite lookup_insert_eq in Hk. injection Hk as <-. simpl in Hh.
           injection Hh as <-. apply simple_hash_range.
        -- rewrite lookup_insert_ne in Hk by done. exact (HP2 _ _ _ Hk Hh).
  - intros k st h. simpl. rewrite init_STATE_lookup.
    case_bool_decide; [|done]. by intros [= <-].
Qed.

Lemma visit_dom_iff hash repr site env w w' k :
  visit hash repr site env w = Ok w' →
  is_Some (STATE w' !! k) ↔ is_Some (STATE w !! k).
Proof.
  intros Hv.
  destruct (visit_inv hash repr site env w w' Hv)
    as (st & Hst & [[_ ->]|(_ & out & w3 & Hd & ->)]); [done|].
  apply dispatch_frame in Hd as (_ & L & _). specialize (L k). simpl in *.
  rewrite <- !(fmap_is_Some last_run), L, !fmap_is_Some.
  rewrite lookup_insert_is_Some. split.
  - intros [<-|[_ ?]]; [by rewrite Hst|done].
  - intros Hk. destruct (decide (name site = k)); [by left|by right].
Qed.

(** X9: the loop never fails on a missing key, and the table of states
    keeps exactly the names of the configured sites: no entry is ever
    added or dropped. *)
Theorem state_table_keeps_its_keys (hash : string -> Z) (repr : string -> string) sites rounds oracle :
  ∃ w, monitor_loop hash repr sites rounds oracle = Ok w
       ∧ ∀ k, is_Some (STATE w !! k) ↔ k ∈ name <$> sites.
Proof.
  destruct (monitor_loop_total hash repr sites rounds oracle) as (w & Hw & _).
  exists w. split; [done|].
  apply (monitor_loop_invariant hash repr
           (λ w, ∀ k, is_Some (STATE w !! k) ↔ k ∈ name <$> sites)
           sites rounds oracle w); try done.
  - intros site env w0 w' _ HP Hv k. by rewrite (visit_dom_iff hash repr site env w0 w' k Hv).
  - intros k. simpl. rewrite init_STATE_lookup.
    case_bool_decide; split; done.
Qed.

(** X11: a missing [STATE] entry does not make the rendered fetch raise:
    the lookup sits inside the [try], so the browser is started if need
    be, the page is loaded and its digest computed, and only then the
    [KeyError] is caught like a render failure: the check returns an
    error whose text is the [repr] of the key, the browser is quit and the
    driver is absent afterwards, with [STATE] untouched. *)
Theorem unknown_site_tears_down_driver
    (hash : string -> Z) (repr : string -> string) site env w d u html :
  STATE w !! name site = None →
  fst (ensure_driver env w) = Some d →
  driver_get env = Ok u →
  page_source env = Ok html →
  ∃ w', check_with_selenium hash repr site env w
        = ((false, "error: " +:+ repr (name site)), w')
        ∧ outcome_of (false, "error: " +:+ repr (name site)) = Error
        ∧ driver w' = None
        ∧ STATE w' = STATE w
        ∧ ∃ tr, trace w'
                = EvQuit d :: EvPrint ("Selenium error: " +:+ repr (name site))
                    :: EvHash (prefix 10000 html) :: EvSleep 1
                    :: EvDriverGet d (url site) :: tr.
Proof.
  intros Hst Hd Hg Hp.
  rewrite (selenium_missing_state hash repr site env w d u html) by done.
  rewrite selenium_failed_eq. simpl. eexists. split; [done|].
  split_and!; [apply outcome_error|done|apply ensure_driver_STATE|by eexists].
Qed.

Lemma unknown_site_tears_down_driver_witness :
  ∃ w', check_with_selenium sample_hash sample_repr Archive (calm 0 "page" None)
          (init_world SITES)
        = ((false, "error: " +:+ sample_repr (name Archive)), w')
        ∧ outcome_of (false, "error: " +:+ sample_repr (name Archive)) = Error
        ∧ driver w' = None
        ∧ STATE w' = STATE (init_world SITES)
        ∧ ∃ tr, trace w'
                = EvQuit 0 :: EvPrint ("Selenium error: " +:+ sample_repr (name Archive))
                    :: EvHash (prefix 10000 "page") :: EvSleep 1
                    :: EvDriverGet 0 (url Archive) :: tr.
Proof.
  apply (unknown_site_tears_down_driver sample_hash sample_repr Archive
           (calm 0 "page" None) (init_world SITES) 0%nat tt "page"); reflexivity.
Defined.

(** With a live driver, a rendered check calls [make_driver] never and
    [d.get] on that driver only; it builds nothing. *)
Lemma selenium_live_events hash repr site env w d :
  driver w = Some d →
  extends (λ ev, ev ≠ EvMakeDriver ∧ ∀ d' u, ev = EvDriverGet d' u → d' = d)
    w (snd (check_with_selenium hash repr site env w))
  ∧ spawned (snd (check_with_selenium hash repr site env w)) = spawned w.
Proof.
  intros Hd. unfold check_with_selenium, ensure_driver, selenium_failed.
  rewrite Hd.
  destruct (driver_get env), (page_source env), (driver_quit env); simpl;
    try (destruct (STATE w !! name site); simpl; try case_bool_decide; simpl).
  all: split; [|done]; unfold extends; simpl; new_events.
  all: repeat first [ apply Forall_nil_2
                    | apply Forall_cons_2; [split; [done|intros ? ? [=]; by subst]|] ].
Qed.

(** X12: the browser is shared: once a rendered check has succeeded, the
    driver it used stays live, and the next rendered check, for whichever
    site and however it ends, calls [make_driver] not at all and drives
    that same instance. *)
Theorem live_driver_is_reused (hash : string -> Z) (repr : string -> string) site site' env env' w d u html st :
  STATE w !! name site = Some st →
  fst (ensure_driver env w) = Some d →
  driver_get env = Ok u →
  page_source env = Ok html →
  driver (snd (check_with_selenium hash repr site env w)) = Some d
  ∧ extends (λ ev, ev ≠ EvMakeDriver ∧ ∀ d' u', ev = EvDriverGet d' u' → d' = d)
      (snd (check_with_selenium hash repr site env w))
      (snd (check_with_selenium hash repr site' env'
              (snd (check_with_selenium hash repr site env w))))
  ∧ spawned (snd (check_with_selenium hash repr site' env'
                    (snd (check_with_selenium hash repr site env w))))
    = spawned (snd (check_with_selenium hash repr site env w)).
Proof.
  intros Hst Hd Hg Hp.
  assert (driver (snd (check_with_selenium hash repr site env w)) = Some d) as Hlive.
  { rewrite (selenium_rendered hash repr site env w d u html st) by done. cbv zeta.
    case_bool_decide; simpl; by rewrite ensure_driver_result. }
  split; [done|]. by apply selenium_live_events.
Qed.

Lemma live_driver_is_reused_witness :
  driver (snd (check_with_selenium sample_hash sample_repr JSApp (calm 0 "page" None)
                 (init_world SITES))) = Some 0%nat
  ∧ extends (λ ev, ev ≠ EvMakeDriver ∧ ∀ d' u', ev = EvDriverGet d' u' → d' = 0%nat)
      (snd (check_with_selenium sample_hash sample_repr JSApp (calm 0 "page" None)
              (init_world SITES)))
      (snd (check_with_selenium sample_hash sample_repr JSApp (crash 700000000)
              (snd (check_with_selenium sample_hash sample_repr JSApp (calm 0 "page" None)
                      (init_world SITES)))))
  ∧ spawned (snd (check_with_selenium sample_hash sample_repr JSApp (crash 700000000)
                    (snd (check_with_selenium sample_hash sample_repr JSApp (calm 0 "page" None)
                            (init_world SITES)))))
    = spawned (snd (check_with_selenium sample_hash sample_repr JSApp (calm 0 "page" None)
                      (init_world SITES))).
Proof.
  apply (live_driver_is_reused sample_hash sample_repr JSApp JSApp (calm 0 "page" None)
           (crash 700000000) (init_world SITES) 0%nat tt "page" fresh_state);
    reflexivity.
Defined.

(** ** The validator *)

(** X13: a 200 reply with new content and an [ETag] header replaces the
    stored validator by the new one, whatever was stored, together with
    the fingerprint; what the next request then sends is that new value,
    or no conditional header at all when the new value is empty. *)
Theorem changed_reply_replaces_validator (hash : string -> Z) site env w st r v :
  STATE w !! name site = Some st →
  requests_get env = Ok r →
  status_code r = 200 →
  last_hash st ≠ Some (simple_hash hash (prefix 5000 (text r))) →
  headers r !! "ETag" = Some v →
  ∃ w' st',
    check_with_requests hash site env w = Ok ((true, "changed"), w')
    ∧ STATE w' !! name site = Some st'
    ∧ etag st' = Some v
    ∧ last_hash st' = Some (simple_hash hash (prefix 5000 (text r)))
    ∧ last_run st' = last_run st
    ∧ request_headers st'
      = if decide (v = EmptyString) then ∅ else {[ "If-None-Match" := v ]}.
Proof.
  intros Hst Hr Hs Hh Hv.
  rewrite (requests_new_hash hash site env w st Hst r Hr Hs Hh), Hv.
  eexists _, _. split; [done|]. simpl. rewrite lookup_insert_eq.
  split_and!; try done.
  unfold request_headers. simpl. by destruct v.
Qed.

Lemma changed_reply_replaces_validator_witness :
  ∃ w' st',
    check_with_requests sample_hash StaticSite (calm 400000000 "Y" (Some "v2"))
      (seen (Some "v1") "X") = Ok ((true, "changed"), w')
    ∧ STATE w' !! name StaticSite = Some st'
    ∧ etag st' = Some "v2"
    ∧ last_hash st' = Some (simple_hash sample_hash (prefix 5000 "Y"))
    ∧ last_run st' = Some 0
    ∧ request_headers st'
      = if decide ("v2" = EmptyString) then ∅ else {[ "If-None-Match" := "v2" ]}.
Proof.
  apply (changed_reply_replaces_validator sample_hash StaticSite
           (calm 400000000 "Y" (Some "v2")) (seen (Some "v1") "X")
           (mkState (Some 0) (Some "v1") (Some (simple_hash sample_hash "X")))
           (reply 200 "Y" (Some "v2")) "v2"); try reflexivity.
  vm_compute. discriminate.
Defined.

(** ** Start-up and the first round *)

Lemma replicate_snoc {A} n (x : A) : replicate n x ++ [x] = x :: replicate n x.
Proof. induction n as [|n IH]; simpl; [done|]. by rewrite IH. Qed.

(** X14: the start-up stagger only sleeps, and does so before anything is
    checked: one [sleep(0)] and then one [sleep(1)] per further site, so
    the loop starts [len(SITES) - 1] seconds late; the globals are not
    touched, and with no sites there is no sleep at all. *)
Theorem stagger_only_sleeps sites w :
  STATE (stagger sites 0 w) = STATE w
  ∧ driver (stagger sites 0 w) = driver w
  ∧ spawned (stagger sites 0 w) = spawned w
  ∧ trace (stagger sites 0 w)
    = replicate (length sites - 1) (EvSleep 1)
      ++ match sites with
         | [] => []
         | _ :: _ => [EvSleep 0]
         end
      ++ trace w.
Proof.
  assert (∀ l s w0,
            STATE (stagger l s w0) = STATE w0
            ∧ driver (stagger l s w0) = driver w0
            ∧ spawned (stagger l s w0) = spawned w0
            ∧ trace (stagger l s w0)
              = replicate (length l - 1) (EvSleep 1)
                ++ match l with
                   | [] => []
                   | _ :: _ => [EvSleep s]
                   end
                ++ trace w0) as H.
  { induction l as [|a rest IH]; intros s w0; simpl; [done|].
    destruct (IH 1 (emit (EvSleep s) w0)) as (-> & -> & -> & ->). simpl.
    split_and!; try done. rewrite Nat.sub_0_r.
    destruct rest as [|b rest]; simpl; [done|].
    rewrite Nat.sub_0_r, cons_middle, app_assoc, replicate_snoc. done. }
  apply H.
Qed.







(** ** More on the rendering instance *)

(** X16: [ensure_driver] is idempotent: once it has returned a driver,
    calling it again returns the same driver and does nothing, whatever
    [make_driver] would do now. *)
Theorem ensure_driver_idempotent env env' w d :
  fst (ensure_driver env w) = Some d →
  ensure_driver env' (snd (ensure_driver env w))
  = (Some d, snd (ensure_driver env w)).
Proof.
  intros Hd. apply ensure_driver_live. by rewrite ensure_driver_result.
Qed.

Lemma ensure_driver_idempotent_witness :
  ensure_driver (outage 5) (snd (ensure_driver (calm 0 "page" None) (init_world SITES)))
  = (Some 0%nat, snd (ensure_driver (calm 0 "page" None) (init_world SITES))).
Proof.
  apply (ensure_driver_idempotent (calm 0 "page" None) (outage 5) (init_world SITES) 0%nat).
  reflexivity.
Defined.

Lemma accounted_emit ev w :
  (∀ d, ev ≠ EvQuit d) → drivers_accounted w → drivers_accounted (emit ev w).
Proof.
  intros Hev [H1 H2]. split; [done|]. intros d. simpl.
  rewrite <- H2. destruct ev; try done. exfalso. by apply (Hev d0).
Qed.

Lemma accounted_set_site_state nm st w :
  drivers_accounted w → drivers_accounted (set_site_state nm st w).
Proof. by intros [H1 H2]. Qed.

Lemma accounted_ensure_driver env w :
  drivers_accounted w → drivers_accounted (snd (ensure_driver env w)).
Proof.
  intros Hw. unfold ensure_driver.
  destruct (driver w) as [d0|] eqn:Hd0; [done|].
  destruct Hw as [H1 H2].
  destruct (make_driver env); simpl; (split; [by intros d [= <-]|]).
  - intros d. simpl. rewrite H2, Hd0.
    destruct (decide ((d < spawned w)%nat ∧ None ≠ Some d)) as [[Hlt _]|Hn];
      [rewrite decide_True; [done|split; [lia|intros [= <-]; lia]]|].
    rewrite decide_False; [done|]. intros [Hlt Hne]. apply Hn. split; [|done].
    assert (spawned w ≠ d) by congruence. lia.
  - intros d. simpl. by rewrite H2, Hd0.
Qed.

Lemma accounted_failed d e env w :
  driver w = Some d → drivers_accounted w →
  drivers_accounted (snd (selenium_failed d e env w)).
Proof.
  intros Hd [H1 H2]. rewrite selenium_failed_eq. simpl.
  split; [done|]. intros d'. simpl. rewrite H2, Hd. specialize (H1 d Hd).
  case_bool_decide as Heq.
  - subst d'. rewrite decide_False by (intros [_ ?]; done).
    rewrite decide_True; [done|split; [lia|done]].
  - destruct (decide ((d' < spawned w)%nat ∧ Some d ≠ Some d')) as [[Hlt _]|Hn];
      [by rewrite decide_True|].
    rewrite decide_False; [done|]. intros [Hlt _]. apply Hn. split; [done|].
    congruence.
Qed.

Lemma accounted_selenium hash repr site env w :
  drivers_accounted w →
  drivers_accounted (snd (check_with_selenium hash repr site env w)).
Proof.
  intros Hw. unfold check_with_selenium.
  pose proof (accounted_ensure_driver env w Hw) as H0.
  pose proof (ensure_driver_result env w) as Hd.
  destruct (ensure_driver env w) as [[d|] w0]; simpl in *; [|done].
  assert (∀ evs w1, driver w1 = Some d → drivers_accounted w1 →
            Forall (λ ev, ∀ d', ev ≠ EvQuit d') evs →
            driver (foldr emit w1 evs) = Some d
            ∧ drivers_accounted (foldr emit w1 evs)) as Hemit.
  { induction evs as [|ev evs IH]; intros w1 Hd1 Ha1 F; [done|].
    apply Forall_cons in F as [Hev F]. destruct (IH w1 Hd1 Ha1 F) as [? ?].
    split; [done|]. by apply accounted_emit. }
  destruct (driver_get env).
  2: { destruct (Hemit [EvDriverGet d (url site)] w0) as [? ?]; try done.
       { by repeat constructor. }
       by apply accounted_failed. }
  destruct (page_source env) as [html|].
  2: { destruct (Hemit [EvSleep 1; EvDriverGet d (url site)] w0) as [? ?]; try done.
       { by repeat constructor. }
       by apply accounted_failed. }
  destruct (Hemit [EvHash (prefix 10000 html); EvSleep 1; EvDriverGet d (url site)] w0)
    as [? ?]; try done.
  { by repeat constructor. }
  simpl. destruct (STATE w0 !! name site) as [st|].
  2: { by apply accounted_failed. }
  case_bool_decide; simpl; [done|]. by apply accounted_set_site_state.
Qed.

Lemma quits_app d evs tr :
  Forall (λ ev, ¬ driver_event ev) evs → quits d (evs ++ tr) = quits d tr.
Proof.
  induction 1 as [|ev evs Hev _ IH]; [done|].
  destruct ev; simpl in *; done.
Qed.

Lemma accounted_requests hash site env w out w' :
  check_with_requests hash site env w = Ok (out, w') →
  drivers_accounted w → drivers_accounted w'.
Proof.
  intros Hc [H1 H2].
  destruct (requests_footprint hash site env w out w' Hc)
    as (Hd & Hs & (evs & Htr & F) & _).
  split; [by rewrite Hd, Hs|]. intros d. rewrite Htr, Hd, Hs, <- H2.
  apply quits_app. eapply Forall_impl; [exact F|]. by intros ev [? _].
Qed.

(** X17: the drivers are accounted for.  In every world the loop reaches,
    a live driver is the one built last and [quit] has not been called on
    it; on every driver built earlier [quit] has been called exactly
    once; and [quit] is called on nothing else. *)
Theorem built_drivers_are_live_or_quit
    (hash : string -> Z) (repr : string -> string) sites rounds oracle :
  ∃ w, monitor_loop hash repr sites rounds oracle = Ok w
       ∧ (∀ d, driver w = Some d → spawned w = S d ∧ quits d (trace w) = 0%nat)
       ∧ (∀ d, (d < spawned w)%nat → driver w ≠ Some d → quits d (trace w) = 1%nat)
       ∧ (∀ d, (spawned w ≤ d)%nat → quits d (trace w) = 0%nat).
Proof.
  destruct (monitor_loop_total hash repr sites rounds oracle) as (w & Hw & _).
  exists w. split; [done|].
  assert (drivers_accounted w) as [H1 H2].
  { apply (monitor_loop_invariant hash repr drivers_accounted sites rounds oracle w);
      [| | |exact Hw].
    - intros site env w0 w' _ HP Hv.
      destruct (visit_inv hash repr site env w0 w' Hv)
        as (st & Hst & [[_ ->]|(_ & out & w3 & Hd & ->)]); [done|].
      do 2 (apply accounted_emit; [done|]).
      assert (drivers_accounted
                (emit (EvChecking site (utcnow env))
                   (set_site_state (name site) (set_last_run (utcnow env) st) w0)))
        as Hstart by (apply accounted_emit; [done|]; by apply accounted_set_site_state).
      unfold dispatch in Hd. destruct (needs_js site); simpl in Hd.
      + injection Hd as Hd.
        match type of Hd with
        | check_with_selenium hash repr site env ?x = _ =>
            pose proof (accounted_selenium hash repr site env x) as Hl
        end.
        rewrite Hd in Hl. by apply Hl.
      + by eapply accounted_requests.
    - intros secs w0 HP. by apply accounted_emit.
    - split; [done|]. intros d.
      rewrite decide_False; [done|]. intros [H _]. simpl in H. lia. }
  split_and!.
  - intros d Hd. split; [by apply H1|]. rewrite H2. case_decide as H; [|done].
    by destruct H as [_ H].
  - intros d Hlt Hne. rewrite H2. by rewrite decide_True.
  - intros d Hge. rewrite H2. case_decide as H; [|done]. destruct H as [H _]. lia.
Qed.

Lemma built_drivers_are_live_or_quit_witness :
  ∃ w, monitor_loop sample_hash sample_repr SITES 2
         (λ r _, match r with
                 | O => crash 1000000000
                 | S _ => calm 1700000000 "page" None
                 end) = Ok w
       ∧ spawned w = 2%nat
       ∧ driver w = Some 1%nat
       ∧ quits 1 (trace w) = 0%nat
       ∧ quits 0 (trace w) = 1%nat.
Proof.
  destruct (built_drivers_are_live_or_quit sample_hash sample_repr SITES 2
              (λ r _, match r with
                      | O => crash 1000000000
                      | S _ => calm 1700000000 "page" None
                      end))
    as (w & Hw & Hlive & Hquit & _).
  exists w. split; [exact Hw|].
  assert (spawned w = 2%nat ∧ driver w = Some 1%nat) as [Hs Hd].
  { vm_compute in Hw. injection Hw as <-. split; reflexivity. }
  split_and!; [exact Hs|exact Hd|by apply Hlive|].
  apply Hquit; [rewrite Hs; lia|rewrite Hd; discriminate].
Defined.

(** ** Dispatch times *)

(** In a spaced trace whose dispatched sites all have a positive interval,
    the latest dispatch of a resource is its latest in time as well. *)
Lemma last_dispatch_is_max tr nm s t :
  spaced tr →
  (∀ s' t', EvChecking s' t' ∈ tr → 0 < interval s') →
  EvChecking s t ∈ tr → name s = nm →
  ∃ t0, last_dispatch nm tr = Some t0 ∧ t ≤ t0.
Proof.
  induction tr as [|ev tr IH]; intros Hsp Hpos Hin Hnm.
  { by apply elem_of_nil in Hin. }
  assert (∀ s' t', EvChecking s' t' ∈ tr → 0 < interval s') as Hpos'.
  { intros s' t' H. apply (Hpos s' t'). by right. }
  apply elem_of_cons in Hin as [<-|Hin].
  { simpl. rewrite bool_decide_eq_true_2 by done. exists t. split; [done|lia]. }
  destruct ev; simpl in *; try by apply IH.
  destruct Hsp as [Hgap Hsp].
  destruct (IH Hsp Hpos' Hin Hnm) as (t0 & Ht0 & Hle).
  case_bool_decide as Heq; [|by exists t0].
  eexists. split; [done|]. subst nm. rewrite <- Heq in Ht0.
  specialize (Hgap t0 Ht0).
  assert (0 < interval site) by (apply (Hpos site now); by left). nia.
Qed.

(** X18: with positive intervals, any two dispatches of the same
    resource, consecutive or not, are at least the later site's interval
    apart and in particular strictly ordered in time: a clock that stands
    still or jumps back cannot cause a repeated or out-of-order check. *)
Theorem dispatch_times_increase (hash : string -> Z) (repr : string -> string) sites rounds oracle :
  (∀ s, s ∈ sites → 0 < interval s) →
  ∃ w, monitor_loop hash repr sites rounds oracle = Ok w
       ∧ ∀ pre mid post s1 t1 s2 t2,
           trace w = pre ++ EvChecking s2 t2 :: mid ++ EvChecking s1 t1 :: post →
           name s1 = name s2 →
           t1 + interval s2 * 1000000 ≤ t2 ∧ t1 < t2.
Proof.
  intros Hpos.
  destruct (monitor_loop_total hash repr sites rounds oracle) as (w & Hw & [_ Hsp]).
  exists w. split; [done|].
  assert (∀ s t, EvChecking s t ∈ trace w → s ∈ sites) as Hfrom.
  { apply (monitor_loop_invariant hash repr
             (λ w, ∀ s t, EvChecking s t ∈ trace w → s ∈ sites) sites rounds oracle w);
      try done.
    - intros site env w0 w' Hsite HP Hv.
      destruct (visit_inv hash repr site env w0 w' Hv)
        as (st & Hst & [[_ ->]|(_ & out & w3 & Hd & ->)]); [done|].
      apply dispatch_events in Hd as (evs & Htr & F). simpl in *.
      intros s t Hin. rewrite Htr in Hin.
      apply elem_of_cons in Hin as [?|Hin]; [done|].
      apply elem_of_cons in Hin as [?|Hin]; [done|].
      apply elem_of_app in Hin as [Hin|Hin].
      + rewrite Forall_forall in F. by destruct (F _ Hin).
      + apply elem_of_cons in Hin as [[= -> ->]|Hin]; [done|]. by eapply HP.
    - intros secs w0 HP s t Hin. simpl in Hin.
      apply elem_of_cons in Hin as [?|Hin]; [done|]. by eapply HP.
    - intros s t Hin. simpl in Hin. by apply elem_of_nil in Hin. }
  intros pre mid post s1 t1 s2 t2 Htr Hname.
  assert (0 < interval s2) as Hpos2.
  { apply Hpos, (Hfrom s2 t2). rewrite Htr. apply elem_of_app. right. by left. }
  rewrite Htr in Hsp. apply spaced_suffix in Hsp. simpl in Hsp.
  destruct Hsp as [Hgap Hsp].
  destruct (last_dispatch_is_max (mid ++ EvChecking s1 t1 :: post) (name s2) s1 t1)
    as (t0 & Ht0 & Hle); try done.
  - intros s' t' Hin. apply Hpos, (Hfrom s' t'). rewrite Htr.
    apply elem_of_app. right. by right.
  - apply elem_of_app. right. by left.
  - specialize (Hgap t0 Ht0). lia.
Qed.

Lemma dispatch_times_increase_witness :
  ∃ w, monitor_loop sample_hash sample_repr SITES 3
         (λ r _, calm (1000000000 + Z.of_nat r * 400000000) "X" None) = Ok w
       ∧ ∀ pre mid post s1 t1 s2 t2,
           trace w = pre ++ EvChecking s2 t2 :: mid ++ EvChecking s1 t1 :: post →
           name s1 = name s2 →
           t1 + interval s2 * 1000000 ≤ t2 ∧ t1 < t2.
Proof.
  apply (dispatch_times_increase sample_hash sample_repr SITES 3
           (λ r _, calm (1000000000 + Z.of_nat r * 400000000) "X" None)).
  intros s Hs.
  repeat (apply elem_of_cons in Hs as [->|Hs]; [vm_compute; reflexivity|]).
  by apply elem_of_nil in Hs.
Defined.
